(** * AniList activity bot: account store, dedup ledger, poller, leaderboard

    A shallow embedding of [anilist.js].  The bot keeps two global
    objects, [anilistUsers] (Discord id -> {id, name}) and
    [lastActivityId] (AniList name -> last posted activity id), a file
    [users.json], and talks to two outside parties: the AniList GraphQL
    endpoint and the Discord channel/message API.  The embedding threads
    the two objects, the file and a chronological trace of effects through
    every function; the answers of the outside parties are arguments. *)

From stdpp Require Import gmap strings list pretty sorting.
From Stdlib Require Import ZArith String Ascii.

#[local] Set Warnings "-register-all".
Local Open Scope string_scope.
Local Open Scope Z_scope.

(** ** The JavaScript values the bot handles *)

Module Js.

(** Values as [JSON.parse] produces them, plus [undefined] (the result of
    reading a property that is not there).  Numbers are the integers: the
    identifiers and counts of the program are integers. *)
Inductive jsval : Type :=
  | JUndefined
  | JNull
  | JBool (b : bool)
  | JNum (z : Z)
  | JStr (s : string)
  | JArr (l : list jsval)
  | JObj (o : list (string * jsval)).

(** An object is its list of own properties in enumeration order. *)
Abbreviation jsobj := (list (string * jsval)).

(** [if (v)], [v && ...], [v || ...]. *)
Definition truthy (v : jsval) : bool :=
  match v with
  | JUndefined | JNull => false
  | JBool b => b
  | JNum z => negb (z =? 0)
  | JStr s => negb (String.eqb s "")
  | JArr _ | JObj _ => true
  end.

Definition is_string (v : jsval) : option string :=
  match v with JStr s => Some s | _ => None end.

(** [typeof v === 'object'] (true of [null], arrays and objects). *)
Definition typeof_object (v : jsval) : bool :=
  match v with JNull | JArr _ | JObj _ => true | _ => false end.

Fixpoint obj_lookup (k : string) (o : jsobj) : option jsval :=
  match o with
  | [] => None
  | (k', v) :: o' => if String.eqb k k' then Some v else obj_lookup k o'
  end.

(** [o[k]] on an object held as a property list. *)
Definition obj_get (k : string) (o : jsobj) : jsval :=
  default JUndefined (obj_lookup k o).

(** [v.k] for the property names the program reads ([id], [name]): only
    plain objects have them.  ([null.k] and [undefined.k] throw; the
    program reads properties of store entries, which are objects, see
    [store_objects], and behind [?.].) *)
Definition prop (v : jsval) (k : string) : jsval :=
  match v with JObj o => obj_get k o | _ => JUndefined end.

(** An array index is the canonical decimal spelling of an integer below
    2^32 - 1; such keys are enumerated first, in ascending order. *)
Fixpoint digits (s : string) (acc : N) : option N :=
  match s with
  | EmptyString => Some acc
  | String c s' =>
      let n := N_of_ascii c in
      if ((48 <=? n) && (n <=? 57))%N then digits s' (acc * 10 + (n - 48))%N
      else None
  end.

Definition array_index (k : string) : option N :=
  match k with
  | EmptyString => None
  | _ =>
      match digits k 0%N with
      | Some n =>
          if (String.eqb (pretty n) k && (n <? 4294967295)%N)%bool
          then Some n else None
      | None => None
      end
  end.

Fixpoint obj_replace (k : string) (v : jsval) (o : jsobj) : jsobj :=
  match o with
  | [] => []
  | (k', v') :: o' =>
      if String.eqb k k' then (k', v) :: o' else (k', v') :: obj_replace k v o'
  end.

Fixpoint obj_insert_index (i : N) (k : string) (v : jsval) (o : jsobj) : jsobj :=
  match o with
  | [] => [(k, v)]
  | (k', v') :: o' =>
      match array_index k' with
      | Some j =>
          if (j <? i)%N then (k', v') :: obj_insert_index i k v o'
          else (k, v) :: o
      | None => (k, v) :: o
      end
  end.

(** [o[k] = v]: an existing property keeps its place; a new one goes among
    the array indices if it is one, to the end otherwise. *)
Definition obj_set (k : string) (v : jsval) (o : jsobj) : jsobj :=
  match obj_lookup k o with
  | Some _ => obj_replace k v o
  | None =>
      match array_index k with
      | Some i => obj_insert_index i k v o
      | None => o ++ [(k, v)]
      end
  end.

(** [delete o[k]]. *)
Fixpoint obj_delete (k : string) (o : jsobj) : jsobj :=
  match o with
  | [] => []
  | (k', v) :: o' =>
      if String.eqb k k' then obj_delete k o' else (k', v) :: obj_delete k o'
  end.

(** [Object.values(o)], [Object.keys(o)]. *)
Definition obj_values (o : jsobj) : list jsval := map snd o.
Definition obj_keys (o : jsobj) : list string := map fst o.

(** Folding of the ASCII letters: what [String.prototype.toLowerCase]
    does on ASCII strings.  It serves as the instance of the examples. *)
Definition lower_ascii (c : ascii) : ascii :=
  let n := N_of_ascii c in
  if ((65 <=? n) && (n <=? 90))%N then ascii_of_N (n + 32) else c.

Fixpoint ascii_toLowerCase (s : string) : string :=
  match s with
  | EmptyString => EmptyString
  | String c s' => String (lower_ascii c) (ascii_toLowerCase s')
  end.

(** No byte of [s] is outside ASCII. *)
Fixpoint ascii_only (s : string) : bool :=
  match s with
  | EmptyString => true
  | String c s' => (N_of_ascii c <? 128)%N && ascii_only s'
  end.

(** The string a value turns into when it is used as a property key or
    spliced into a template. *)
Fixpoint ToString (v : jsval) : string :=
  match v with
  | JUndefined => "undefined"
  | JNull => "null"
  | JBool true => "true"
  | JBool false => "false"
  | JNum z => pretty z
  | JStr s => s
  | JObj _ => "[object Object]"
  | JArr l =>
      (fix join (l : list jsval) : string :=
         match l with
         | [] => ""
         | x :: l' =>
             let e := match x with
                      | JUndefined | JNull => ""
                      | _ => ToString x
                      end in
             match l' with
             | [] => e
             | _ => e +:+ "," +:+ join l'
             end
         end) l
  end.

(** The (key, value) pairs a [for (k in v)] loop visits. *)
Fixpoint indexed {A} (i : N) (l : list A) : list (string * A) :=
  match l with
  | [] => []
  | x :: l' => (pretty i, x) :: indexed (N.succ i) l'
  end.

Fixpoint chars (s : string) : list jsval :=
  match s with
  | EmptyString => []
  | String c s' => JStr (String c EmptyString) :: chars s'
  end.

Definition for_in (v : jsval) : jsobj :=
  match v with
  | JObj o => o
  | JArr l => indexed 0%N l
  | JStr s => indexed 0%N (chars s)
  | _ => []
  end.

(** Strings are held as their UTF-8 bytes.  The class [\s] of a regular
    expression has the characters U+0009 to U+000D, U+0020, U+00A0,
    U+1680, U+2000 to U+200A, U+2028, U+2029, U+202F, U+205F, U+3000 and
    U+FEFF; the last nine kinds take two or three bytes, none below 128
    after the first. *)
Definition space3 (n1 n2 n3 : N) : bool :=
  ((n1 =? 225) && (n2 =? 154) && (n3 =? 128)
   || (n1 =? 226) && (n2 =? 128)
      && ((n3 <=? 138) || (n3 =? 168) || (n3 =? 169) || (n3 =? 175))
   || (n1 =? 226) && (n2 =? 129) && (n3 =? 159)
   || (n1 =? 227) && (n2 =? 128) && (n3 =? 128)
   || (n1 =? 239) && (n2 =? 187) && (n3 =? 191))%N.

(** The number of bytes of the white-space character [s] begins with,
    0 when it begins with none. *)
Definition space_len (s : string) : nat :=
  match s with
  | EmptyString => 0
  | String c1 s1 =>
      let n1 := N_of_ascii c1 in
      if ((n1 =? 32) || ((9 <=? n1) && (n1 <=? 13)))%N then 1
      else
        match s1 with
        | EmptyString => 0
        | String c2 s2 =>
            let n2 := N_of_ascii c2 in
            if (n2 <? 128)%N then 0
            else if ((n1 =? 194) && (n2 =? 160))%N then 2
            else
              match s2 with
              | EmptyString => 0
              | String c3 _ =>
                  let n3 := N_of_ascii c3 in
                  if (n3 <? 128)%N then 0
                  else if space3 n1 n2 n3 then 3 else 0
              end
        end
  end%nat.

(** [s.split(/\s+/)]: [cur] is the part being read, [in_gap] tells that
    white space was just read, [skip] counts the bytes still to pass of a
    white-space character of several bytes. *)
Fixpoint split_ws_go (s : string) (cur : string) (in_gap : bool) (skip : nat)
  : list string :=
  match s with
  | EmptyString => [cur]
  | String c s' =>
      match skip with
      | S k => split_ws_go s' cur in_gap k
      | O =>
          match space_len s with
          | O => split_ws_go s' (cur +:+ String c EmptyString) false O
          | S k =>
              if in_gap then split_ws_go s' cur true k
              else cur :: split_ws_go s' EmptyString true k
          end
      end
  end.

Definition split_ws (s : string) : list string :=
  split_ws_go s EmptyString false O.

End Js.
Import Js.

(** ** The part of the language left open *)

Section bot.

(** [String.prototype.toLowerCase]: its table is the Unicode standard's,
    so the embedding takes the function as it comes.  [ascii_toLowerCase]
    is what it does on strings of ASCII characters, for the examples. *)
Variable toLowerCase : string -> string.

(** ** What AniList answers *)

(** The answer to [USER_ID_QUERY]: the request is rejected (transport
    failure, HTTP error status), or [response.data.data.User] is [null],
    or it is a user. *)
Inductive resolve_result : Type :=
  | ResolveFailed (msg : string)
  | ResolveNull
  | ResolveUser (id : Z) (name : string).

(** ** State and effects *)

(** The object literal [{ id: userData.id, name: userData.name }]. *)
Definition link_obj (id : Z) (name : string) : jsval :=
  JObj [("id", JNum id); ("name", JStr name)].

(** [users.json]: missing; present, but reading it or [JSON.parse] throws;
    or present with the parsed value. *)
Inductive file : Type :=
  | NoFile
  | Garbage
  | Json (v : jsval).

(** The embed of one activity notification.  Dates stay numbers
    (milliseconds since the epoch): their spelling is the host's. *)
Record embed : Type := {
  color : Z;
  title : string;
  url : string;
  description : string;
  thumbnail : option string;
  timestamp : Z
}.

(** What goes to the console, by the statement that prints it.
    [LogAniListError] is one call of [logAniListErrorDetails], which
    prints the message and, when the error carries a response body, three
    lines more. *)
Inductive logline : Type :=
  | LogConverting (name : string)
  | LogUserNotFound (name : string)
  | LogConversionError (name msg : string)
  | LogSaving
  | LogLoaded (n : nat)
  | LogLoadError
  | LogNoUsers
  | LogNoChannel
  | LogNoActivity (name : string)
  | LogKnown (name : string) (id : Z)
  | LogPosted (name : string)
  | LogAniListError (name msg : string)
  | LogTopError (name msg : string).

(** The replies to a command, by the statement that sends them. *)
Inductive reply : Type :=
  | ReplyUsage
  | ReplyAlreadyLinked (name : string)
  | ReplyLinked (name : string) (id : Z)
  | ReplyNotFound (name : string)
  | ReplyApiError
  | ReplyUnlinked (name : string)
  | ReplyNotLinked.

(** Everything the program does that is visible in order: console lines,
    writes of [users.json], assignments to [lastActivityId], messages to
    the notification channel, replies. *)
Inductive event : Type :=
  | Log (l : logline)
  | WriteFile (doc : jsobj)
  | Remember (name : string) (id : Z)
  | Forget (name : string)
  | Send (e : embed) (delivered : bool)
  | Reply (r : reply).

(** The two global objects, the file and the trace.  [lastActivityId] is
    read and written under account names only, so it is a finite map from
    names to identifiers (a name spelt like a member of [Object.prototype]
    is outside the model). *)
Record bot : Type := {
  anilistUsers : jsobj;
  lastActivityId : gmap string Z;
  usersFile : file;
  trace : list event
}.

Definition emit (e : event) (st : bot) : bot :=
  {| anilistUsers := anilistUsers st; lastActivityId := lastActivityId st;
     usersFile := usersFile st; trace := trace st ++ [e] |}.

Definition emit_all (es : list event) (st : bot) : bot :=
  {| anilistUsers := anilistUsers st; lastActivityId := lastActivityId st;
     usersFile := usersFile st; trace := trace st ++ es |}.

Definition set_users (o : jsobj) (st : bot) : bot :=
  {| anilistUsers := o; lastActivityId := lastActivityId st;
     usersFile := usersFile st; trace := trace st |}.

Definition set_ledger (m : gmap string Z) (st : bot) : bot :=
  {| anilistUsers := anilistUsers st; lastActivityId := m;
     usersFile := usersFile st; trace := trace st |}.

(** The documents written to [users.json], oldest first. *)
Definition writes (t : list event) : list jsobj :=
  omap (fun e => match e with WriteFile d => Some d | _ => None end) t.

(** The notifications handed to the channel, oldest first. *)
Definition sends (t : list event) : list embed :=
  omap (fun e => match e with Send m _ => Some m | _ => None end) t.

Definition replies (t : list event) : list reply :=
  omap (fun e => match e with Reply r => Some r | _ => None end) t.

(** ** Account store: [saveUsers], [loadUsers] *)

(** [fs.writeFileSync(USERS_FILE, JSON.stringify(anilistUsers, null, 2))];
    the write is taken to go through. *)
Definition saveUsers (st : bot) : bot :=
  emit (WriteFile (anilistUsers st))
    {| anilistUsers := anilistUsers st; lastActivityId := lastActivityId st;
       usersFile := Json (JObj (anilistUsers st)); trace := trace st |}.

(** [value && typeof value === 'object' && value.id && value.name] *)
Definition is_structured (value : jsval) : bool :=
  truthy value && typeof_object value
  && truthy (prop value "id") && truthy (prop value "name").

(** The body of the [for (const discordId in rawUsers)] loop for one value:
    what is stored under the key (if anything), whether [requiresSave] is
    raised, and the console lines. *)
Definition convert_entry (resolve : string -> resolve_result) (value : jsval)
  : option jsval * bool * list logline :=
  match value with
  | JStr s =>
      match resolve s with
      | ResolveUser id name =>
          (Some (link_obj id name), true, [LogConverting s])
      | ResolveNull => (None, false, [LogConverting s; LogUserNotFound s])
      | ResolveFailed msg =>
          (None, false, [LogConverting s; LogConversionError s msg])
      end
  | _ =>
      if is_structured value then (Some value, false, []) else (None, false, [])
  end.

Record conversion : Type := {
  convertedUsers : jsobj;
  requiresSave : bool;
  printed : list logline
}.

Fixpoint convert_entries (resolve : string -> resolve_result)
    (rawUsers : jsobj) (acc : conversion) : conversion :=
  match rawUsers with
  | [] => acc
  | (discordId, value) :: rest =>
      let '(stored, dirty, lines) := convert_entry resolve value in
      convert_entries resolve rest
        {| convertedUsers :=
             match stored with
             | Some v => obj_set discordId v (convertedUsers acc)
             | None => convertedUsers acc
             end;
           requiresSave := requiresSave acc || dirty;
           printed := printed acc ++ lines |}
  end.

(** [loadUsers], with the write of its [saveUsers()] call going through. *)
Definition loadUsers (resolve : string -> resolve_result) (st : bot) : bot :=
  match usersFile st with
  | NoFile => st
  | Garbage => emit (Log LogLoadError) (set_users [] st)
  | Json rawUsers =>
      let c := convert_entries resolve (for_in rawUsers)
                 {| convertedUsers := []; requiresSave := false; printed := [] |} in
      let st1 := set_users (convertedUsers c) (emit_all (map Log (printed c)) st) in
      let st2 := if requiresSave c then saveUsers (emit (Log LogSaving) st1) else st1 in
      emit (Log (LogLoaded (List.length (obj_keys (anilistUsers st2))))) st2
  end.

(** [fs.writeFileSync] goes through, or it throws and leaves on the disk
    whatever it leaves. *)
Inductive write_result : Type :=
  | Written
  | WriteFailed (remains : file).

(** [loadUsers] with either outcome of the write.  The call of
    [saveUsers()] stands inside the outer [try]: when the write throws, the
    [catch] prints the error and empties the store, and the line that
    counts the loaded users is not reached. *)
Definition loadUsers_on (write : write_result)
    (resolve : string -> resolve_result) (st : bot) : bot :=
  match usersFile st with
  | NoFile => st
  | Garbage => emit (Log LogLoadError) (set_users [] st)
  | Json rawUsers =>
      let c := convert_entries resolve (for_in rawUsers)
                 {| convertedUsers := []; requiresSave := false; printed := [] |} in
      let st1 := set_users (convertedUsers c) (emit_all (map Log (printed c)) st) in
      if requiresSave c then
        let st2 := emit (Log LogSaving) st1 in
        match write with
        | Written =>
            let st3 := saveUsers st2 in
            emit (Log (LogLoaded (List.length (obj_keys (anilistUsers st3))))) st3
        | WriteFailed remains =>
            emit (Log LogLoadError)
              {| anilistUsers := []; lastActivityId := lastActivityId st2;
                 usersFile := remains; trace := trace st2 |}
        end
      else emit (Log (LogLoaded (List.length (obj_keys (anilistUsers st1))))) st1
  end.

(** ** Activity poller: [fetchAndPostActivity] *)

(** The node [response.data.data.Page.activities[0]] of [ACTIVITY_QUERY],
    with the fields the poller reads, when all that the embed needs is
    there. *)
Record activity : Type := {
  act_id : Z;
  act_status : string;
  act_progress : option string;
  act_siteUrl : string;
  act_createdAt : Z;
  media_title : string;
  media_type : string;
  media_cover : option string
}.

(** One request of [ACTIVITY_QUERY]:
    - rejected, or answered without [response.data], so that reading the
      node throws before any identifier is seen;
    - answered without an activity;
    - answered with an activity node from which the embed can be built;
    - answered with an activity node that has the identifier [id] but from
      which the embed cannot be built: [media] or its [title] is [null], a
      status outside [statusMap] is [null], or [createdAt] is no date for
      [toISOString]; [msg] is the message of the error thrown. *)
Inductive activity_result : Type :=
  | FetchFailed (msg : string)
  | NoActivity
  | Latest (activityNode : activity)
  | Unbuildable (id : Z) (msg : string).

(** [channel.send] either delivers or rejects with an error. *)
Inductive send_result : Type :=
  | Delivered
  | SendFailed (msg : string).

Definition statusMap (status : string) : option string :=
  if String.eqb status "CURRENT" then Some "is currently watching 📺"
  else if String.eqb status "REPEATING" then Some "is rewatching 🔄"
  else if String.eqb status "COMPLETED" then Some "completed 🎉"
  else if String.eqb status "PAUSED" then Some "paused ⏸️"
  else if String.eqb status "DROPPED" then Some "dropped 🗑️"
  else if String.eqb status "PLANNING" then Some "is planning to watch/read 💡"
  else None.

Definition newline : string := String (ascii_of_N 10) EmptyString.

(** The embed built between the ledger update and [channel.send]. *)
Definition render (username : string) (activityNode : activity) : embed :=
  let mediaTitle := media_title activityNode in
  let is_anime := String.eqb (media_type activityNode) "ANIME" in
  let mediaType := if is_anime then "Anime 🎬" else "Manga 📖" in
  let userStatus :=
    match statusMap (act_status activityNode) with
    | Some s => s
    | None => toLowerCase (act_status activityNode)
    end in
  let description :=
    "**" +:+ username +:+ "** " +:+ userStatus +:+ " **" +:+ mediaTitle +:+ "**!" in
  let description :=
    match act_progress activityNode with
    | Some p =>
        if String.eqb p "" then description
        else description +:+ newline +:+ "**Progress**: " +:+ p
    | None => description
    end in
  {| color := if is_anime then 39423 else 16753920;
     title := username +:+ " updated their progress in " +:+ mediaType;
     url := act_siteUrl activityNode;
     description := description;
     thumbnail := media_cover activityNode;
     timestamp := act_createdAt activityNode * 1000 |}.

(** [lastActivityId[username] && lastActivityId[username] >= currentId]. *)
Definition already_known (stored : option Z) (currentId : Z) : bool :=
  match stored with
  | Some last => negb (last =? 0) && (last >=? currentId)
  | None => false
  end.

(** The body of [for (const user of userObjects)], [try]/[catch] included. *)
Definition poll_user (fetch : jsval -> activity_result)
    (send : embed -> send_result) (user : jsval) (st : bot) : bot :=
  let userId := prop user "id" in
  let username := ToString (prop user "name") in
  match fetch userId with
  | FetchFailed msg => emit (Log (LogAniListError username msg)) st
  | NoActivity => emit (Log (LogNoActivity username)) st
  | Latest activityNode =>
      let currentId := act_id activityNode in
      if already_known (lastActivityId st !! username) currentId
      then emit (Log (LogKnown username currentId)) st
      else
        let st := emit (Remember username currentId)
                    (set_ledger (<[username := currentId]> (lastActivityId st)) st) in
        let e := render username activityNode in
        match send e with
        | Delivered => emit (Log (LogPosted username)) (emit (Send e true) st)
        | SendFailed msg =>
            emit (Log (LogAniListError username msg)) (emit (Send e false) st)
        end
  | Unbuildable currentId msg =>
      if already_known (lastActivityId st !! username) currentId
      then emit (Log (LogKnown username currentId)) st
      else
        let st := emit (Remember username currentId)
                    (set_ledger (<[username := currentId]> (lastActivityId st)) st) in
        emit (Log (LogAniListError username msg)) st
  end.

Definition poll_users (fetch : jsval -> activity_result)
    (send : embed -> send_result) (userObjects : list jsval) (st : bot) : bot :=
  fold_left (fun st user => poll_user fetch send user st) userObjects st.

(** One poll cycle; [channel] is [client.channels.cache.get(...)]. *)
Definition fetchAndPostActivity (fetch : jsval -> activity_result)
    (channel : option (embed -> send_result)) (st : bot) : bot :=
  let userObjects := obj_values (anilistUsers st) in
  match userObjects with
  | [] => emit (Log LogNoUsers) st
  | _ =>
      match channel with
      | None => emit (Log LogNoChannel) st
      | Some send => poll_users fetch send userObjects st
      end
  end.

(** Successive poll cycles (the timer of [clientReady]), each with the
    answers AniList and the channel give during it. *)
Definition poll_cycles (channel : option (embed -> send_result))
    (fetches : list (jsval -> activity_result)) (st : bot) : bot :=
  fold_left (fun st fetch => fetchAndPostActivity fetch channel st) fetches st.

(** ** Commands: the [messageCreate] handler *)

Record message : Type := {
  author_bot : bool;
  author_id : string;
  content : string
}.

(** [user.name.toLowerCase()]; [None] is the [TypeError] of calling
    [toLowerCase] on something that is not a string. *)
Definition name_lower (user : jsval) : option string :=
  toLowerCase <$> is_string (prop user "name").

(** [anilistUser?.name?.toLowerCase() ?? ''] *)
Definition own_lower (anilistUser : jsval) : option string :=
  match anilistUser with
  | JUndefined | JNull => Some ""
  | _ =>
      match prop anilistUser "name" with
      | JUndefined | JNull => Some ""
      | JStr s => Some (toLowerCase s)
      | _ => None
      end
  end.

(** The predicate handed to [users.find]; [None] when it throws. *)
Definition collides (usernameToLink : string) (anilistUser user : jsval)
  : option bool :=
  match name_lower user with
  | None => None
  | Some n =>
      if String.eqb n (toLowerCase usernameToLink) then
        match own_lower anilistUser with
        | None => None
        | Some own => Some (negb (String.eqb n own))
        end
      else Some false
  end.

(** [users.find(...)]: [Some (Some u)] found, [Some None] not found,
    [None] the predicate threw. *)
Fixpoint find_existing (usernameToLink : string) (anilistUser : jsval)
    (users : list jsval) : option (option jsval) :=
  match users with
  | [] => Some None
  | user :: rest =>
      match collides usernameToLink anilistUser user with
      | None => None
      | Some true => Some (Some user)
      | Some false => find_existing usernameToLink anilistUser rest
      end
  end.

(** How one run of the handler ends: it returned, an exception escaped
    it, it left a [USER_ID_QUERY] request in flight whose [then]/[catch]
    run later, or the message is one of the commands that only read the
    store ([!myanime], [!mymanga], [!profile], [!topanime], [!topmanga],
    [!stats], [!anihelp]) or no command at all. *)
Inductive handled : Type :=
  | Returned (st : bot)
  | Threw (st : bot)
  | Requested (discordId usernameToLink : string) (st : bot)
  | Other (st : bot).

Definition messageCreate (m : message) (st : bot) : handled :=
  if author_bot m then Returned st
  else
    let content_lc := toLowerCase (content m) in
    let discordId := author_id m in
    let anilistUser := obj_get discordId (anilistUsers st) in
    if String.prefix "!anilist link " content_lc then
      match split_ws (content m) with
      | [_; _; usernameToLink] =>
          let users := obj_values (anilistUsers st) in
          match find_existing usernameToLink anilistUser users with
          | None => Threw st
          | Some (Some _) =>
              Returned (emit (Reply (ReplyAlreadyLinked usernameToLink)) st)
          | Some None => Requested discordId usernameToLink st
          end
      | _ => Returned (emit (Reply ReplyUsage) st)
      end
    else if String.eqb content_lc "!anilist unlink" || String.eqb content_lc "!unlink" then
      if truthy anilistUser then
        let name := ToString (prop anilistUser "name") in
        let st := emit (Forget name)
                    (set_ledger (delete name (lastActivityId st)) st) in
        let st := set_users (obj_delete discordId (anilistUsers st)) st in
        let st := saveUsers st in
        Returned (emit (Reply (ReplyUnlinked name)) st)
      else Returned (emit (Reply ReplyNotLinked) st)
    else Other st.

(** The [then] and [catch] callbacks of the request the link command
    leaves in flight, run on the state of the moment the answer arrives. *)
Definition link_settled (discordId usernameToLink : string)
    (answer : resolve_result) (st : bot) : bot :=
  match answer with
  | ResolveUser id name =>
      let st := set_users (obj_set discordId (link_obj id name) (anilistUsers st)) st in
      let st := saveUsers st in
      emit (Reply (ReplyLinked name id)) st
  | ResolveNull => emit (Reply (ReplyNotFound usernameToLink)) st
  | ResolveFailed msg =>
      emit (Log (LogAniListError usernameToLink msg)) (emit (Reply ReplyApiError) st)
  end.

(** A message handled with nothing else happening before AniList answers. *)
Definition handle (resolve : string -> resolve_result) (m : message) (st : bot) : bot :=
  match messageCreate m st with
  | Returned st' | Threw st' | Other st' => st'
  | Requested discordId usernameToLink st' =>
      link_settled discordId usernameToLink (resolve usernameToLink) st'
  end.

(** ** Leaderboard: [fetchAndPostTopStats] *)

Inductive metric : Type := anime | manga.

Record statistics : Type := {
  anime_count : Z;
  episodesWatched : Z;
  manga_count : Z;
  chaptersRead : Z
}.

(** [response.data.data.User] of [STATS_QUERY]. *)
Record user_data : Type := {
  user_name : string;
  user_avatar : string;
  user_statistics : option statistics
}.

(** One entry of [responses]: [null] (the request failed and its [catch]
    logged it), or a response whose [User] is [null] or a user. *)
Inductive stats_response : Type :=
  | StatsFailed
  | StatsAnswer (user : option user_data).

Record stat : Type := {
  name : string;
  count : Z;
  episodesOrChapters : Z;
  avatar : string
}.

(** [.map(res => res?.data?.data?.User).filter(data => data && data.statistics)]
    followed by the [.map] that builds the entry. *)
Definition valid_stat (type : metric) (res : stats_response) : option stat :=
  match res with
  | StatsAnswer (Some data) =>
      match user_statistics data with
      | Some s =>
          Some {| name := user_name data;
                  count := match type with anime => anime_count s | manga => manga_count s end;
                  episodesOrChapters :=
                    match type with anime => episodesWatched s | manga => chaptersRead s end;
                  avatar := user_avatar data |}
      | None => None
      end
  | _ => None
  end.

(** [.sort((a, b) => b.count - a.count)]: the sort of the language is
    stable, so with this comparator it is the stable insertion below. *)
Fixpoint insert_desc (a : stat) (l : list stat) : list stat :=
  match l with
  | [] => [a]
  | b :: l' => if count b - count a >? 0 then b :: insert_desc a l' else a :: l
  end.

Definition sort_desc (l : list stat) : list stat := foldr insert_desc [] l.

Definition validStats (type : metric) (responses : list stats_response) : list stat :=
  take 10 (sort_desc (omap (valid_stat type) responses)).

(** The requests of the leaderboard, one per linked account, in
    [Object.values] order. *)
Definition top_responses (fetch : jsval -> stats_response) (st : bot)
  : list stats_response :=
  map (fun user => fetch (prop user "name")) (obj_values (anilistUsers st)).

(** ** Start-up *)

(** The globals as the module body leaves them, with [users.json] as found. *)
Definition initial (f : file) : bot :=
  {| anilistUsers := []; lastActivityId := ∅; usersFile := f; trace := [] |}.

(** ** Vocabulary of the statements *)

(** What the conversion loop stores under a key whose value is [value],
    and whether that value raises [requiresSave]. *)
Definition stored (resolve : string -> resolve_result) (value : jsval)
  : option jsval :=
  (convert_entry resolve value).1.1.

Definition upgraded (resolve : string -> resolve_result) (value : jsval) : bool :=
  (convert_entry resolve value).1.2.

Definition is_object (v : jsval) : Prop :=
  match v with JObj _ => True | _ => False end.

(** Every entry of the store is an object. *)
Definition store_objects (st : bot) : Prop :=
  Forall is_object (obj_values (anilistUsers st)).

(** The name under which the poller files an account: [username]. *)
Definition account (user : jsval) : string := ToString (prop user "name").

(** The account a console line of the poller is about. *)
Definition log_account (e : event) : option string :=
  match e with
  | Log (LogAniListError n _) | Log (LogNoActivity n)
  | Log (LogKnown n _) | Log (LogPosted n) => Some n
  | _ => None
  end.

(** The ledger holds, under [n], an identifier at or above [id]. *)
Definition remembered (n : string) (id : Z) (st : bot) : Prop :=
  exists last, lastActivityId st !! n = Some last /\ id <= last.

(** The shapes of message that reach the two commands. *)
Definition is_link_command (m : message) (usernameToLink : string) : Prop :=
  author_bot m = false
  /\ String.prefix "!anilist link " (toLowerCase (content m)) = true
  /\ exists p0 p1, split_ws (content m) = [p0; p1; usernameToLink].

Definition is_unlink_command (m : message) : Prop :=
  author_bot m = false
  /\ (toLowerCase (content m) = "!anilist unlink"
      \/ toLowerCase (content m) = "!unlink").


(** [a] may stand before [b] in a ranking. *)
Definition desc (a b : stat) : Prop := count b <= count a.

(** ** Example data *)

(** A legacy document used in the examples: one bare name. *)
Definition legacy_doc : jsobj := [("u1", JStr "Alice")].

Definition knows_alice (s : string) : resolve_result :=
  if String.eqb s "Alice" then ResolveUser 42 "Alice" else ResolveNull.

Definition mixed_doc : jsobj :=
  [("u1", JStr "Alice"); ("u2", JStr "Ghost"); ("u3", link_obj 7 "Bob")].



Definition odd_doc : jsobj :=
  [("u1", JNum 5); ("u2", JObj [("id", JNum 0); ("name", JStr "Zed")]);
   ("u3", JArr [JStr "x"]); ("u4", JNull)].

(** Example data: one tracked account, activities told apart by their
    address, a channel that delivers and one that refuses. *)
Definition sample (i : Z) : activity :=
  {| act_id := i; act_status := "CURRENT"; act_progress := Some "3";
     act_siteUrl := "https://anilist.co/activity/" +:+ pretty i;
     act_createdAt := 1700000000; media_title := "Mushishi";
     media_type := "ANIME"; media_cover := None |}.

Definition alice : jsval := link_obj 1 "Alice".

Definition alice_only : bot := set_users [("u1", alice)] (initial NoFile).

Definition deliver : embed -> send_result := fun _ => Delivered.

Definition refuse : embed -> send_result := fun _ => SendFailed "Missing Access".

Definition feed (ids : list Z) : list (jsval -> activity_result) :=
  map (fun i _ => Latest (sample i)) ids.

(** Example data: three linked accounts; the request for the first is
    rejected, the second has a new activity, the third has none. *)
Definition three_users : bot :=
  set_users [("u1", link_obj 1 "Alice"); ("u2", link_obj 2 "Bob");
             ("u3", link_obj 3 "Carol")] (initial NoFile).

(** The second account's latest activity has lost its media. *)
Definition orphaned (userId : jsval) : activity_result :=
  match userId with
  | JNum 1 => Latest (sample 6)
  | JNum 2 => Unbuildable 8 "Cannot read properties of null (reading 'title')"
  | _ => NoActivity
  end.

Definition flaky (userId : jsval) : activity_result :=
  match userId with
  | JNum 1 => FetchFailed "timeout of 1000ms exceeded"
  | JNum 2 => Latest (sample 8)
  | _ => NoActivity
  end.



Definition unlink_by (d : string) : message :=
  {| author_bot := false; author_id := d; content := "!Unlink" |}.

(** A state in which Alice is linked and already has a ledger entry. *)
Definition alice_seen : bot :=
  poll_user (fun _ => Latest (sample 5)) deliver alice alice_only.

Definition knows_bob (s : string) : resolve_result :=
  if String.eqb s "bob" then ResolveUser 2 "Bob" else ResolveNull.

Definition link_bob_by (d : string) : message :=
  {| author_bot := false; author_id := d; content := "!anilist link bob" |}.

(** The three answers of the example: A has 10, B and C have 25. *)
Definition answer (n : string) (c : Z) : stats_response :=
  StatsAnswer (Some {| user_name := n; user_avatar := "";
                       user_statistics :=
                         Some {| anime_count := c; episodesWatched := 0;
                                 manga_count := 0; chaptersRead := 0 |} |}).

Definition example_responses : list stats_response :=
  [answer "A" 10; answer "B" 25; answer "C" 25].

(** ** Further vocabulary: poll cycles *)

(** The activity the body of the poll loop posts for [user] when
    [lastActivityId] is [ledger]: the fetched one, unless the request
    fails, brings nothing, brings a known identifier, or brings a node
    from which no embed can be built. *)
Definition fresh (fetch : jsval -> activity_result) (ledger : gmap string Z)
    (user : jsval) : option activity :=
  match fetch (prop user "id") with
  | Latest activityNode =>
      if already_known (ledger !! account user) (act_id activityNode)
      then None else Some activityNode
  | _ => None
  end.

(** The identifiers assigned to [lastActivityId[n]], oldest first. *)
Definition remembers (n : string) (t : list event) : list Z :=
  omap (fun e => match e with
                 | Remember n' id => if String.eqb n n' then Some id else None
                 | _ => None
                 end) t.

(** The identifier of the activity node a request brings, if it brings
    one. *)
Definition fetched_id (r : activity_result) : option Z :=
  match r with
  | Latest activityNode => Some (act_id activityNode)
  | Unbuildable id _ => Some id
  | _ => None
  end.

(** The identifier the body of the poll loop assigns to the ledger for
    [user] when [lastActivityId] is [ledger]: that of the fetched node,
    unless it is known. *)
Definition noted (fetch : jsval -> activity_result) (ledger : gmap string Z)
    (user : jsval) : option Z :=
  match fetched_id (fetch (prop user "id")) with
  | Some id => if already_known (ledger !! account user) id then None else Some id
  | None => None
  end.

(** Every request of the cycle that brings an activity brings one with a
    positive identifier. *)
Definition positive_ids (fetch : jsval -> activity_result) : Prop :=
  forall userId id, fetched_id (fetch userId) = Some id -> 0 < id.

(** The identifiers [rs] assigned under one name since the ledger held
    [base] there, against what it holds now: they went up strictly, each
    positive and above a non-zero [base], and the last one is stored. *)
Definition tracks (base : option Z) (rs : list Z) (stored : option Z) : Prop :=
  StronglySorted Z.lt rs
  /\ Forall (fun id => 0 < id /\ forall last, base = Some last -> last <> 0 -> last < id) rs
  /\ ((rs = [] /\ stored = base)
      \/ exists top, stored = Some top /\ top ∈ rs /\ Forall (fun x => x <= top) rs).

(** The trace grew from [t0] by events whose assignments under [n] the
    ledger tracks. *)
Definition grown (n : string) (base : option Z) (t0 : list event) (st : bot) : Prop :=
  exists evs,
    trace st = (t0 ++ evs)%list
    /\ tracks base (remembers n evs) (lastActivityId st !! n).

(** [clientReady]: load the store, then run the first poll cycle (the
    later ones are [poll_cycles]). *)
Definition clientReady (resolve : string -> resolve_result)
    (fetch : jsval -> activity_result) (channel : option (embed -> send_result))
    (f : file) : bot :=
  fetchAndPostActivity fetch channel (loadUsers resolve (initial f)).

(** ** Further vocabulary: the store and the commands *)

(** The store represents an object of objects: no key twice, every
    value an object. *)
Definition store_wf (st : bot) : Prop :=
  NoDup (obj_keys (anilistUsers st)) /\ store_objects st.

(** No two Discord ids are linked to names that agree up to letter case. *)
Definition unique_names (users : jsobj) : Prop :=
  forall d1 d2 u1 u2 n,
    obj_lookup d1 users = Some u1 -> obj_lookup d2 users = Some u2 ->
    name_lower u1 = Some n -> name_lower u2 = Some n -> d1 = d2.

(** A word: not empty and without white space (no white-space character
    begins anywhere in it). *)
Fixpoint space_free (s : string) : bool :=
  match s with
  | EmptyString => true
  | String c s' => Nat.eqb (space_len (String c s')) 0 && space_free s'
  end.

Definition word (s : string) : Prop := s <> "" /\ space_free s = true.

(** Words joined by single spaces. *)
Fixpoint spaced (ws : list string) : string :=
  match ws with
  | [] => ""
  | [w] => w
  | w :: ws' => w +:+ " " +:+ spaced ws'
  end.

Definition message_of (d : string) (ws : list string) : message :=
  {| author_bot := false; author_id := d; content := spaced ws |}.

(** ** Statistics commands: [!myanime], [!mymanga], [!profile] *)

(** ['anime'], ['manga'], ['both']. *)
Inductive stats_type : Type := type_anime | type_manga | type_both.

(** A message with [message.mentions.users]: the mentioned users, id and
    username, in order. *)
Record stats_message : Type := {
  msg : message;
  mentions_users : list (string * string)
}.

Inductive stats_feedback : Type :=
  | LinkFirst
  | MentionNotLinked (username : string)
  | StatsUsage.

(** How the third block of the handler ends: the message is none of its
    commands, the caller is told what is wrong, or
    [fetchAndReplyUserStats(targetUsername, message, type)] is called. *)
Inductive stats_step : Type :=
  | NotStats
  | StatsFeedback (r : stats_feedback)
  | StatsLookup (targetUsername : jsval) (type : stats_type).

Definition stats_command (sm : stats_message) (st : bot) : stats_step :=
  let m := msg sm in
  match messageCreate m st with
  | Other _ =>
      let content_lc := toLowerCase (content m) in
      let anilistUser := obj_get (author_id m) (anilistUsers st) in
      if String.prefix "!myanime" content_lc || String.prefix "!mymanga" content_lc
         || String.prefix "!profile" content_lc
      then
        let args := tail (split_ws (content m)) in
        let type :=
          if String.prefix "!myanime" content_lc then type_anime
          else if String.prefix "!mymanga" content_lc then type_manga
          else type_both in
        match args with
        | [] =>
            if truthy anilistUser then StatsLookup (prop anilistUser "name") type
            else StatsFeedback LinkFirst
        | [arg] =>
            match mentions_users sm with
            | [(id, username)] =>
                let mentionedAnilistUser := obj_get id (anilistUsers st) in
                if truthy mentionedAnilistUser
                then StatsLookup (prop mentionedAnilistUser "name") type
                else StatsFeedback (MentionNotLinked username)
            | _ => StatsLookup (JStr arg) type
            end
        | _ => StatsFeedback StatsUsage
        end
      else NotStats
  | _ => NotStats
  end.

(** The command words of the statistics block and the type each sets. *)
Definition stats_word (w : string) (type : stats_type) : Prop :=
  (ascii_toLowerCase w = "!myanime" /\ type = type_anime)
  \/ (ascii_toLowerCase w = "!mymanga" /\ type = type_manga)
  \/ (ascii_toLowerCase w = "!profile" /\ type = type_both).

(** * Properties *)

Local Open Scope list_scope.

(** ** Objects as property lists *)

Section objects.
Implicit Types (k : string) (v : jsval) (o : jsobj).

Lemma obj_lookup_None k o : obj_lookup k o = None <-> k ∉ obj_keys o.
Proof.
  induction o as [|[k' v'] o IH]; simpl.
  - split; [intros _; apply not_elem_of_nil | done].
  - rewrite not_elem_of_cons. destruct (String.eqb_spec k k') as [->|Hne].
    + split; [done | intros [? _]; done].
    + rewrite IH. split; [intros ?; by split | by intros [_ ?]].
Qed.

Lemma obj_lookup_replace_eq k v o :
  is_Some (obj_lookup k o) -> obj_lookup k (obj_replace k v o) = Some v.
Proof.
  induction o as [|[k' v'] o IH]; simpl; [intros [? [=]]|].
  destruct (String.eqb_spec k k') as [->|Hne]; simpl.
  - by rewrite String.eqb_refl.
  - intros H. apply String.eqb_neq in Hne as ->. auto.
Qed.

Lemma obj_lookup_replace_ne k k' v o :
  k <> k' -> obj_lookup k' (obj_replace k v o) = obj_lookup k' o.
Proof.
  intros Hne. induction o as [|[k2 v2] o IH]; simpl; [done|].
  destruct (String.eqb_spec k k2) as [->|Hne2]; simpl.
  - assert (String.eqb k' k2 = false) as -> by (apply String.eqb_neq; congruence).
    done.
  - by rewrite IH.
Qed.

Lemma obj_lookup_insert_index_eq i k v o :
  obj_lookup k o = None -> obj_lookup k (obj_insert_index i k v o) = Some v.
Proof.
  induction o as [|[k' v'] o IH]; simpl.
  - by rewrite String.eqb_refl.
  - destruct (String.eqb_spec k k') as [->|Hne]; [done|]. intros H.
    destruct (array_index k') as [j|]; [destruct (j <? i)%N|]; simpl;
      rewrite ?String.eqb_refl; try done.
    apply String.eqb_neq in Hne as ->. auto.
Qed.

Lemma obj_lookup_insert_index_ne i k k' v o :
  k <> k' -> obj_lookup k' (obj_insert_index i k v o) = obj_lookup k' o.
Proof.
  intros Hne. assert (String.eqb k' k = false) as Hb
    by (apply String.eqb_neq; congruence).
  induction o as [|[k2 v2] o IH]; simpl; [by rewrite Hb|].
  destruct (array_index k2) as [j|]; [destruct (j <? i)%N|]; simpl;
    rewrite ?Hb, ?IH; done.
Qed.

Lemma obj_lookup_snoc k k' v o :
  obj_lookup k' (o ++ [(k, v)]) =
  match obj_lookup k' o with
  | Some w => Some w
  | None => if String.eqb k' k then Some v else None
  end.
Proof.
  induction o as [|[k2 v2] o IH]; simpl; [done|].
  by destruct (String.eqb k' k2).
Qed.

Lemma obj_lookup_set_eq k v o : obj_lookup k (obj_set k v o) = Some v.
Proof.
  unfold obj_set. destruct (obj_lookup k o) as [w|] eqn:Hk.
  - apply obj_lookup_replace_eq. by rewrite Hk.
  - destruct (array_index k).
    + by apply obj_lookup_insert_index_eq.
    + by rewrite obj_lookup_snoc, Hk, String.eqb_refl.
Qed.

Lemma obj_lookup_set_ne k k' v o :
  k <> k' -> obj_lookup k' (obj_set k v o) = obj_lookup k' o.
Proof.
  intros Hne. unfold obj_set. destruct (obj_lookup k o) as [w|] eqn:Hk.
  - by apply obj_lookup_replace_ne.
  - destruct (array_index k).
    + by apply obj_lookup_insert_index_ne.
    + rewrite obj_lookup_snoc. destruct (obj_lookup k' o); [done|].
      assert (String.eqb k' k = false) as -> by (apply String.eqb_neq; congruence).
      done.
Qed.

Lemma obj_lookup_delete_eq k o : obj_lookup k (obj_delete k o) = None.
Proof.
  induction o as [|[k' v'] o IH]; simpl; [done|].
  destruct (String.eqb_spec k k') as [->|Hne]; simpl; [done|].
  by apply String.eqb_neq in Hne as ->.
Qed.

Lemma obj_lookup_delete_ne k k' o :
  k <> k' -> obj_lookup k' (obj_delete k o) = obj_lookup k' o.
Proof.
  intros Hne. induction o as [|[k2 v2] o IH]; simpl; [done|].
  destruct (String.eqb_spec k k2) as [->|Hne2]; simpl.
  - assert (String.eqb k' k2 = false) as -> by (apply String.eqb_neq; congruence).
    done.
  - by rewrite IH.
Qed.

Lemma obj_delete_absent k o : obj_lookup k o = None -> obj_delete k o = o.
Proof.
  induction o as [|[k' v'] o IH]; simpl; [done|].
  destruct (String.eqb k k'); [done|]. intros H. by rewrite IH.
Qed.

Lemma obj_lookup_elem k v o : obj_lookup k o = Some v -> v ∈ obj_values o.
Proof.
  unfold obj_values. induction o as [|[k' v'] o IH]; simpl; [done|].
  destruct (String.eqb k k').
  - intros [= ->]. apply list_elem_of_here.
  - intros H. apply list_elem_of_further. auto.
Qed.
End objects.

(** ** Trace bookkeeping *)

Lemma writes_app t1 t2 : writes (t1 ++ t2) = writes t1 ++ writes t2.
Proof. apply omap_app. Qed.

Lemma sends_app t1 t2 : sends (t1 ++ t2) = sends t1 ++ sends t2.
Proof. apply omap_app. Qed.

Lemma replies_app t1 t2 : replies (t1 ++ t2) = replies t1 ++ replies t2.
Proof. apply omap_app. Qed.

Lemma writes_logs ls : writes (map Log ls) = [].
Proof. by induction ls. Qed.

(** ** Loading the account store *)

Section load.
Variable resolve : string -> resolve_result.

Lemma convert_entries_lookup rawUsers : forall acc k,
  NoDup (obj_keys rawUsers) ->
  (forall k', k' ∈ obj_keys rawUsers -> obj_lookup k' (convertedUsers acc) = None) ->
  obj_lookup k (convertedUsers (convert_entries resolve rawUsers acc)) =
  match obj_lookup k rawUsers with
  | Some value => stored resolve value
  | None => obj_lookup k (convertedUsers acc)
  end.
Proof.
  induction rawUsers as [|[d value] rest IH]; intros acc k Hnd Hfresh; [done|].
  simpl in Hnd. apply NoDup_cons in Hnd as [Hd Hnd].
  cbn [convert_entries obj_lookup].
  destruct (convert_entry resolve value) as [[sv dirty] ls] eqn:Hce.
  rewrite IH; [|done|]; cbn [convertedUsers].
  - destruct (String.eqb_spec k d) as [->|Hne].
    + apply obj_lookup_None in Hd as ->. unfold stored. rewrite Hce.
      destruct sv as [v|]; cbn; [apply obj_lookup_set_eq|].
      apply Hfresh. simpl. apply list_elem_of_here.
    + destruct (obj_lookup k rest); [done|].
      destruct sv as [v|]; [|done]. apply obj_lookup_set_ne. congruence.
  - intros k' Hk'. assert (d <> k') by (intros ->; done).
    destruct sv as [v|].
    + rewrite obj_lookup_set_ne by done. apply Hfresh. simpl.
      by apply list_elem_of_further.
    + apply Hfresh. simpl. by apply list_elem_of_further.
Qed.

Lemma convert_entries_dirty rawUsers : forall acc,
  requiresSave (convert_entries resolve rawUsers acc) =
  requiresSave acc || existsb (fun kv => upgraded resolve kv.2) rawUsers.
Proof.
  induction rawUsers as [|[d value] rest IH]; intros acc; simpl.
  - by rewrite orb_false_r.
  - unfold upgraded at 1. simpl.
    destruct (convert_entry resolve value) as [[sv dirty] ls].
    rewrite IH. simpl. by rewrite orb_assoc.
Qed.

Lemma upgraded_spec value :
  upgraded resolve value = true <->
  exists s id name, value = JStr s /\ resolve s = ResolveUser id name.
Proof.
  unfold upgraded, convert_entry. split.
  - destruct value; try (destruct (is_structured _); done).
    destruct (resolve s) eqn:Hr; try done. eauto.
  - intros (s & id & name & -> & ->). done.
Qed.

Lemma stored_legacy s :
  stored resolve (JStr s) =
  match resolve s with
  | ResolveUser id name => Some (link_obj id name)
  | _ => None
  end.
Proof. unfold stored, convert_entry. by destruct (resolve s). Qed.

Lemma stored_other value :
  is_string value = None ->
  stored resolve value = if is_structured value then Some value else None.
Proof.
  unfold stored, convert_entry.
  destruct value; try done; by destruct (is_structured _).
Qed.

(** The store [loadUsers] leaves, key by key, for a parsed document. *)
Lemma loadUsers_lookup st rawUsers k :
  usersFile st = Json rawUsers ->
  NoDup (obj_keys (for_in rawUsers)) ->
  obj_lookup k (anilistUsers (loadUsers resolve st)) =
  obj_lookup k (for_in rawUsers) ≫= stored resolve.
Proof.
  intros Hf Hnd. unfold loadUsers. rewrite Hf.
  set (c := convert_entries _ _ _).
  assert (obj_lookup k (convertedUsers c) = obj_lookup k (for_in rawUsers) ≫= stored resolve)
    as Hc.
  { subst c. rewrite convert_entries_lookup by done. simpl.
    by destruct (obj_lookup k (for_in rawUsers)). }
  by destruct (requiresSave c).
Qed.

(** The writes of [users.json] during [loadUsers]. *)
Lemma loadUsers_writes st rawUsers :
  usersFile st = Json rawUsers ->
  let st' := loadUsers resolve st in
  if existsb (fun kv => upgraded resolve kv.2) (for_in rawUsers)
  then writes (trace st') = writes (trace st) ++ [anilistUsers st']
       /\ usersFile st' = Json (JObj (anilistUsers st'))
  else writes (trace st') = writes (trace st) /\ usersFile st' = usersFile st.
Proof.
  intros Hf. unfold loadUsers. rewrite Hf.
  set (c := convert_entries _ _ _).
  assert (requiresSave c = existsb (fun kv => upgraded resolve kv.2) (for_in rawUsers)) as <-.
  { subst c. by rewrite convert_entries_dirty. }
  destruct (requiresSave c); cbn.
  - rewrite !writes_app, writes_logs. cbn. by rewrite !app_nil_r.
  - rewrite !writes_app, writes_logs. cbn. by rewrite !app_nil_r.
Qed.
End load.

(** ** The store holds objects *)

Lemma Forall_obj_replace (P : jsval -> Prop) k v (o : jsobj) :
  Forall P (obj_values o) -> P v -> Forall P (obj_values (obj_replace k v o)).
Proof.
  unfold obj_values. induction o as [|[k' v'] o IH]; simpl; [done|].
  intros [Hv' Ho]%Forall_cons Hv.
  destruct (String.eqb k k'); simpl; constructor; auto.
Qed.

Lemma Forall_obj_insert_index (P : jsval -> Prop) i k v (o : jsobj) :
  Forall P (obj_values o) -> P v -> Forall P (obj_values (obj_insert_index i k v o)).
Proof.
  unfold obj_values. induction o as [|[k' v'] o IH]; simpl.
  - by constructor.
  - intros Ho Hv. pose proof Ho as [Hv' Ho']%Forall_cons.
    destruct (array_index k') as [j|]; [destruct (j <? i)%N|]; simpl;
      constructor; auto.
Qed.

Lemma Forall_obj_set (P : jsval -> Prop) k v (o : jsobj) :
  Forall P (obj_values o) -> P v -> Forall P (obj_values (obj_set k v o)).
Proof.
  intros Ho Hv. unfold obj_set. destruct (obj_lookup k o).
  - by apply Forall_obj_replace.
  - destruct (array_index k).
    + by apply Forall_obj_insert_index.
    + unfold obj_values in *. rewrite map_app. apply Forall_app. split; [done|].
      by constructor.
Qed.

Lemma Forall_obj_delete (P : jsval -> Prop) k (o : jsobj) :
  Forall P (obj_values o) -> Forall P (obj_values (obj_delete k o)).
Proof.
  unfold obj_values. induction o as [|[k' v'] o IH]; simpl; [done|].
  intros [Hv' Ho]%Forall_cons. destruct (String.eqb k k'); simpl; auto.
Qed.

Lemma stored_object resolve value v : stored resolve value = Some v -> is_object v.
Proof.
  unfold stored, convert_entry.
  destruct value as [| |b|z|s|l|o]; try (by vm_compute).
  - by destruct b.
  - unfold is_structured. simpl. by rewrite andb_false_r.
  - destruct (resolve s); simpl; intros [= <-]. done.
  - destruct (is_structured _); simpl; intros [= <-]. done.
Qed.

Lemma convert_entries_objects resolve rawUsers : forall acc,
  Forall is_object (obj_values (convertedUsers acc)) ->
  Forall is_object (obj_values (convertedUsers (convert_entries resolve rawUsers acc))).
Proof.
  induction rawUsers as [|[d value] rest IH]; intros acc Hacc; [done|].
  cbn [convert_entries].
  pose proof (stored_object resolve value) as Hv. unfold stored in Hv.
  destruct (convert_entry resolve value) as [[sv dirty] ls].
  apply IH. cbn. destruct sv as [v|]; [|done].
  apply Forall_obj_set; [done|]. by apply Hv.
Qed.

(** Loading, polling, linking and unlinking keep the store a store of
    objects, whatever the file holds and AniList answers. *)
Lemma loadUsers_objects resolve st :
  store_objects st -> store_objects (loadUsers resolve st).
Proof.
  unfold store_objects, loadUsers. intros Hst.
  destruct (usersFile st) as [| |rawUsers]; [done|by constructor|].
  set (c := convert_entries _ _ _).
  assert (Forall is_object (obj_values (convertedUsers c))) as Hc.
  { subst c. apply convert_entries_objects. constructor. }
  by destruct (requiresSave c).
Qed.

Lemma link_settled_objects discordId usernameToLink answer st :
  store_objects st ->
  store_objects (link_settled discordId usernameToLink answer st).
Proof.
  unfold store_objects. intros Hst. destruct answer; cbn; [done..|].
  by apply Forall_obj_set.
Qed.

Lemma handle_objects resolve m st :
  store_objects st -> store_objects (handle resolve m st).
Proof.
  intros Hst. unfold handle.
  destruct (messageCreate m st) as [st'|st'|d u st'|st'] eqn:Hm;
    unfold messageCreate in Hm;
    repeat match type of Hm with
           | (if ?b then _ else _) = _ => destruct b
           | match ?x with _ => _ end = _ => destruct x
           end;
    try discriminate; injection Hm as <-; subst;
    try done; try (by apply link_settled_objects);
    unfold store_objects; cbn; by apply Forall_obj_delete.
Qed.

Lemma obj_lookup_In k v (o : jsobj) : obj_lookup k o = Some v -> (k, v) ∈ o.
Proof.
  induction o as [|[k' v'] o IH]; simpl; [done|].
  destruct (String.eqb_spec k k') as [->|Hne].
  - intros [= ->]. apply list_elem_of_here.
  - intros H. apply list_elem_of_further. auto.
Qed.

Lemma obj_lookup_NoDup k v (o : jsobj) :
  NoDup (obj_keys o) -> (k, v) ∈ o -> obj_lookup k o = Some v.
Proof.
  induction o as [|[k' v'] o IH]; simpl; [by intros _ ?%elem_of_nil|].
  intros [Hk' Hnd]%NoDup_cons [[= -> ->]|Hin]%elem_of_cons.
  - by rewrite String.eqb_refl.
  - destruct (String.eqb_spec k k') as [->|Hne]; [|auto].
    exfalso. apply Hk'. unfold obj_keys.
    apply list_elem_of_fmap. by exists (k', v).
Qed.

Lemma is_structured_not_string value :
  is_structured value = true -> is_string value = None.
Proof.
  destruct value; try done. unfold is_structured. simpl.
  by rewrite andb_false_r.
Qed.

(** C3.  When [users.json] parses to an object, every bare-string entry
    whose name AniList resolves is, in the loaded store, the object
    [{id, name}] of the answer, and the load writes the file exactly once,
    with the whole loaded store; when no bare-string entry resolves, the
    load writes nothing and leaves the file as it was. *)
Theorem loadUsers_upgrades_legacy resolve st doc :
  usersFile st = Json (JObj doc) ->
  NoDup (obj_keys doc) ->
  let st' := loadUsers resolve st in
  (forall k s id name,
      obj_lookup k doc = Some (JStr s) ->
      resolve s = ResolveUser id name ->
      obj_lookup k (anilistUsers st')
      = Some (JObj [("id", JNum id); ("name", JStr name)])
      /\ writes (trace st') = writes (trace st) ++ [anilistUsers st']
      /\ usersFile st' = Json (JObj (anilistUsers st')))
  /\ ((forall k s id name,
         obj_lookup k doc = Some (JStr s) -> resolve s <> ResolveUser id name) ->
      writes (trace st') = writes (trace st) /\ usersFile st' = usersFile st).
Proof.
  intros Hf Hnd st'. pose proof (loadUsers_writes resolve st _ Hf) as Hw.
  cbv zeta in Hw. change (for_in (JObj doc)) with doc in Hw.
  change (loadUsers resolve st) with st' in Hw. split.
  - intros k s id name Hk Hr. split.
    + subst st'. rewrite (loadUsers_lookup resolve st (JObj doc)) by done.
      simpl. rewrite Hk. simpl. by rewrite stored_legacy, Hr.
    + assert (existsb (fun kv => upgraded resolve kv.2) doc = true) as He.
      { apply existsb_exists. exists (k, JStr s). split.
        - apply list_elem_of_In. by apply obj_lookup_In.
        - apply upgraded_spec. eauto. }
      rewrite He in Hw. exact Hw.
  - intros Hnone.
    assert (existsb (fun kv => upgraded resolve kv.2) doc = false) as He.
    { apply not_true_is_false. intros ([k v] & Hin & Hup)%existsb_exists.
      apply upgraded_spec in Hup as (s & id & name & Hv & Hr). simpl in Hv. subst v.
      apply (Hnone k s id name); [|done].
      apply obj_lookup_NoDup; [done|]. by apply list_elem_of_In. }
    rewrite He in Hw. exact Hw.
Qed.

(** C4.  When [users.json] parses to an object, a bare-string entry whose
    resolution finds no user or fails in transport is absent from the
    loaded store, while a bare-string entry that resolves is there in
    structured form and an entry that already is a structured object is
    there unchanged. *)
Theorem loadUsers_drops_unresolved resolve st doc :
  usersFile st = Json (JObj doc) ->
  NoDup (obj_keys doc) ->
  let st' := loadUsers resolve st in
  (forall k s,
      obj_lookup k doc = Some (JStr s) ->
      resolve s = ResolveNull \/ (exists msg, resolve s = ResolveFailed msg) ->
      obj_lookup k (anilistUsers st') = None)
  /\ (forall k s id name,
        obj_lookup k doc = Some (JStr s) ->
        resolve s = ResolveUser id name ->
        obj_lookup k (anilistUsers st') = Some (link_obj id name))
  /\ (forall k value,
        obj_lookup k doc = Some value ->
        is_structured value = true ->
        obj_lookup k (anilistUsers st') = Some value).
Proof.
  intros Hf Hnd st'. subst st'.
  split; [|split].
  - intros k s Hk Hr.
    rewrite (loadUsers_lookup resolve st (JObj doc)) by done; simpl.
    rewrite Hk. simpl. rewrite stored_legacy.
    by destruct Hr as [->|[msg ->]].
  - intros k s id name Hk Hr.
    rewrite (loadUsers_lookup resolve st (JObj doc)) by done; simpl.
    rewrite Hk. simpl. by rewrite stored_legacy, Hr.
  - intros k value Hk Hv.
    rewrite (loadUsers_lookup resolve st (JObj doc)) by done; simpl.
    rewrite Hk. simpl. rewrite stored_other, Hv; [done|].
    by apply is_structured_not_string.
Qed.

(** With the write going through, [loadUsers_on] is [loadUsers]. *)
Lemma loadUsers_on_Written resolve st :
  loadUsers_on Written resolve st = loadUsers resolve st.
Proof.
  unfold loadUsers_on, loadUsers. destruct (usersFile st); try done.
  cbv zeta. by destruct (requiresSave _).
Qed.

Lemma loadUsers_on_store write resolve st :
  anilistUsers (loadUsers_on write resolve st) = anilistUsers (loadUsers resolve st)
  \/ anilistUsers (loadUsers_on write resolve st) = [].
Proof.
  destruct write as [|remains]; [left; by rewrite loadUsers_on_Written|].
  unfold loadUsers_on, loadUsers. destruct (usersFile st); auto.
  cbv zeta. destruct (requiresSave _); auto.
Qed.

Lemma existsb_upgraded resolve (rawUsers : jsobj) k s id name :
  (k, JStr s) ∈ rawUsers ->
  resolve s = ResolveUser id name ->
  existsb (fun kv => upgraded resolve kv.2) rawUsers = true.
Proof.
  intros Hin Hr. apply existsb_exists. exists (k, JStr s). split.
  - by apply list_elem_of_In.
  - apply upgraded_spec. eauto.
Qed.

(** C10.  When [users.json] is there but cannot be read as JSON, the load
    ends normally with an empty store, having printed the error and
    written nothing.  When the document parses and a bare name in it is
    upgraded, but the write of the upgraded store throws, the load ends
    normally as well: the store is empty, the error is printed after the
    lines of the conversion, and no document has been written.  And when
    the document parses to an object, an entry that is neither a string
    nor an object with truthy [id] and [name] is left out of the store
    without a console line, whatever becomes of the write. *)
Theorem loadUsers_tolerates_bad_documents write resolve st :
  usersFile st <> NoFile ->
  let st' := loadUsers_on write resolve st in
  (usersFile st = Garbage ->
     anilistUsers st' = []
     /\ trace st' = trace st ++ [Log LogLoadError]
     /\ usersFile st' = Garbage)
  /\ (forall rawUsers remains k s id name,
        usersFile st = Json rawUsers ->
        (k, JStr s) ∈ for_in rawUsers ->
        resolve s = ResolveUser id name ->
        write = WriteFailed remains ->
        anilistUsers st' = []
        /\ (exists lines,
              trace st' = trace st ++ map Log lines ++ [Log LogSaving; Log LogLoadError])
        /\ writes (trace st') = writes (trace st)
        /\ usersFile st' = remains)
  /\ (forall doc k value,
        usersFile st = Json (JObj doc) ->
        NoDup (obj_keys doc) ->
        obj_lookup k doc = Some value ->
        is_string value = None ->
        is_structured value = false ->
        obj_lookup k (anilistUsers st') = None
        /\ convert_entry resolve value = (None, false, [])).
Proof.
  intros _ st'. split; [|split].
  - intros Hf. subst st'. unfold loadUsers_on. by rewrite Hf.
  - intros rawUsers remains k s id name Hf Hin Hr ->. subst st'.
    unfold loadUsers_on. rewrite Hf. cbv zeta.
    rewrite convert_entries_dirty, (existsb_upgraded resolve _ k s id name) by done.
    cbn. repeat split.
    + eexists. by rewrite <- !app_assoc.
    + rewrite !writes_app, writes_logs. cbn. by rewrite !app_nil_r.
  - intros doc k value Hf Hnd Hk Hs Hv. split.
    + subst st'. destruct (loadUsers_on_store write resolve st) as [-> | ->]; [|done].
      rewrite (loadUsers_lookup resolve st (JObj doc)) by done.
      simpl. rewrite Hk. simpl. by rewrite stored_other, Hv.
    + unfold convert_entry. destruct value; try done; by rewrite Hv.
Qed.

(** ** The dedup rule of the poller *)

Section poller.
Variable fetch : jsval -> activity_result.
Variable send : embed -> send_result.

Lemma already_known_true stored currentId :
  already_known stored currentId = true <->
  exists last, stored = Some last /\ last <> 0 /\ currentId <= last.
Proof.
  unfold already_known. destruct stored as [last|].
  - rewrite andb_true_iff, negb_true_iff, Z.eqb_neq, Z.geb_le. split.
    + intros [? ?]. eauto.
    + intros (? & [= <-] & ? & ?). done.
  - split; [done | intros (? & [=] & _)].
Qed.

Lemma already_known_false stored currentId :
  already_known stored currentId = false <->
  stored = None \/ exists last, stored = Some last /\ (last = 0 \/ last < currentId).
Proof.
  rewrite <- not_true_iff_false, already_known_true.
  destruct stored as [last|]; split.
  - intros Hn. right. exists last. split; [done|].
    destruct (decide (last = 0)); [by left | right].
    destruct (decide (last < currentId)); [done|].
    exfalso. apply Hn. exists last. repeat split; [done | lia].
  - intros [[=]|(l & [= <-] & Hl)] (l' & [= <-] & ? & ?). lia.
  - by left.
  - intros _ (? & [=] & _).
Qed.

(** The step for an account whose request brings an activity. *)
Lemma poll_user_latest user st activityNode :
  fetch (prop user "id") = Latest activityNode ->
  let st' := poll_user fetch send user st in
  let username := account user in
  let currentId := act_id activityNode in
  if already_known (lastActivityId st !! username) currentId then
    st' = emit (Log (LogKnown username currentId)) st
  else
    exists delivered line,
      trace st' = trace st ++
        [Remember username currentId;
         Send (render username activityNode) delivered; Log line]
      /\ lastActivityId st' = <[username := currentId]> (lastActivityId st)
      /\ anilistUsers st' = anilistUsers st
      /\ usersFile st' = usersFile st.
Proof.
  intros Hf. cbv zeta. unfold poll_user, account. rewrite Hf.
  destruct (already_known _ _); [done|].
  destruct (send _) as [|msg]; eexists _, _; cbn;
    rewrite <- !app_assoc; cbn; done.
Qed.

Lemma poll_user_sends user st activityNode :
  fetch (prop user "id") = Latest activityNode ->
  sends (trace (poll_user fetch send user st)) =
  sends (trace st) ++
    if already_known (lastActivityId st !! account user) (act_id activityNode)
    then [] else [render (account user) activityNode].
Proof.
  intros Hf. pose proof (poll_user_latest user st _ Hf) as H. cbv zeta in H.
  destruct (already_known _ _).
  - rewrite H. cbn. rewrite sends_app. done.
  - destruct H as (d & line & -> & _). rewrite sends_app. done.
Qed.

Lemma poll_user_trace user st :
  exists evs,
    trace (poll_user fetch send user st) = trace st ++ evs
    /\ omap log_account evs = [account user].
Proof.
  unfold poll_user, account. destruct (fetch _) as [msg| |a|id msg].
  - by eexists [_].
  - by eexists [_].
  - destruct (already_known _ _); [by eexists [_]|].
    destruct (send _); eexists [_; _; _]; cbn; by rewrite <- !app_assoc.
  - destruct (already_known _ _); [by eexists [_]|].
    eexists [_; _]; cbn; by rewrite <- !app_assoc.
Qed.

Lemma poll_user_store user st :
  anilistUsers (poll_user fetch send user st) = anilistUsers st
  /\ usersFile (poll_user fetch send user st) = usersFile st.
Proof.
  unfold poll_user. destruct (fetch _); try done;
    destruct (already_known _ _); try done. by destruct (send _).
Qed.

(** The step writes the ledger under its own account's name only. *)
Lemma poll_user_ledger_other user st n :
  n <> account user ->
  lastActivityId (poll_user fetch send user st) !! n = lastActivityId st !! n.
Proof.
  intros Hn. unfold poll_user. fold (account user).
  destruct (fetch _); try done; destruct (already_known _ _); try done.
  - destruct (send _); cbn; by rewrite lookup_insert_ne.
  - cbn. by rewrite lookup_insert_ne.
Qed.

Lemma poll_users_snoc l user st :
  poll_users fetch send (l ++ [user]) st =
  poll_user fetch send user (poll_users fetch send l st).
Proof. unfold poll_users. by rewrite fold_left_app. Qed.

Lemma poll_users_app l1 l2 st :
  poll_users fetch send (l1 ++ l2) st =
  poll_users fetch send l2 (poll_users fetch send l1 st).
Proof. unfold poll_users. by rewrite fold_left_app. Qed.

Lemma poll_users_trace l : forall st,
  exists evs,
    trace (poll_users fetch send l st) = trace st ++ evs
    /\ omap log_account evs = map account l.
Proof.
  induction l as [|user l IH]; intros st.
  - exists []. by rewrite app_nil_r.
  - destruct (poll_user_trace user st) as (evs1 & Ht1 & Hl1).
    destruct (IH (poll_user fetch send user st)) as (evs2 & Ht2 & Hl2).
    exists (evs1 ++ evs2). split.
    + change (poll_users fetch send (user :: l) st)
        with (poll_users fetch send l (poll_user fetch send user st)).
      by rewrite Ht2, Ht1, app_assoc.
    + by rewrite omap_app, Hl1, Hl2.
Qed.

Lemma poll_users_ledger_other l n : forall st,
  n ∉ map account l ->
  lastActivityId (poll_users fetch send l st) !! n = lastActivityId st !! n.
Proof.
  induction l as [|user l IH]; intros st Hn; [done|].
  simpl in Hn. apply not_elem_of_cons in Hn as [Hne Hn].
  change (poll_users fetch send (user :: l) st)
    with (poll_users fetch send l (poll_user fetch send user st)).
  rewrite IH by done. by apply poll_user_ledger_other.
Qed.

Lemma poll_user_remembered user st n id :
  0 < id -> remembered n id st -> remembered n id (poll_user fetch send user st).
Proof.
  intros Hpos (last & Hl & Hle). unfold remembered, poll_user.
  fold (account user). destruct (fetch _) as [msg| |a|id' msg]; [by eauto..| |].
  - destruct (already_known _ _) eqn:Hk; [by eauto|].
    destruct (decide (n = account user)) as [->|Hne].
    + apply already_known_false in Hk as [Hk|(l & Hk & Hlt)]; [congruence|].
      assert (l = last) as -> by congruence.
      exists (act_id a). destruct (send _); cbn; rewrite lookup_insert_eq;
        (split; [done | lia]).
    + exists last. destruct (send _); cbn; by rewrite lookup_insert_ne.
  - destruct (already_known _ _) eqn:Hk; [by eauto|].
    destruct (decide (n = account user)) as [->|Hne].
    + apply already_known_false in Hk as [Hk|(l & Hk & Hlt)]; [congruence|].
      assert (l = last) as -> by congruence.
      exists id'. cbn. rewrite lookup_insert_eq. split; [done | lia].
    + exists last. cbn. by rewrite lookup_insert_ne.
Qed.

Lemma poll_users_remembered l n id : forall st,
  0 < id -> remembered n id st -> remembered n id (poll_users fetch send l st).
Proof.
  induction l as [|user l IH]; intros st Hpos Hr; [done|].
  apply (IH (poll_user fetch send user st)); [done|].
  by apply poll_user_remembered.
Qed.
End poller.

Lemma fetchAndPostActivity_remembered fetch channel st n id :
  0 < id -> remembered n id st ->
  remembered n id (fetchAndPostActivity fetch channel st).
Proof.
  intros Hpos Hr. unfold fetchAndPostActivity.
  destruct (obj_values (anilistUsers st)) as [|u l] eqn:Hu; [done|].
  destruct channel as [send|]; [|done].
  by apply poll_users_remembered.
Qed.

Lemma poll_cycles_remembered channel fetches n id : forall st,
  0 < id -> remembered n id st -> remembered n id (poll_cycles channel fetches st).
Proof.
  induction fetches as [|fetch fetches IH]; intros st Hpos Hr; [done|].
  apply (IH (fetchAndPostActivity fetch channel st)); [done|].
  by apply fetchAndPostActivity_remembered.
Qed.

(** C1.  When the request for an account brings an activity, the poller
    sends the notification exactly when [lastActivityId] has nothing
    under the account's name or has an identifier strictly below the
    fetched one, and sends nothing exactly when the stored identifier is
    at least the fetched one.  Identifiers are those AniList issues: where
    the ledger holds 0, the fetched identifier is taken to be positive.
    For the identifiers 5, 5, 7, 3, 9 fetched in five successive cycles
    the notifications are those of 5, 7 and 9. *)
Theorem dedup_rule fetch send user st activityNode :
  fetch (prop user "id") = Latest activityNode ->
  (lastActivityId st !! account user = Some 0 -> 0 < act_id activityNode) ->
  let st' := poll_user fetch send user st in
  let stored := lastActivityId st !! account user in
  (sends (trace st') = sends (trace st) ++ [render (account user) activityNode]
   <-> stored = None
       \/ exists last, stored = Some last /\ last < act_id activityNode)
  /\ (sends (trace st') = sends (trace st)
      <-> exists last, stored = Some last /\ act_id activityNode <= last)
  /\ sends (trace (poll_cycles (Some deliver) (feed [5; 5; 7; 3; 9]) alice_only))
     = map (fun i => render "Alice" (sample i)) [5; 7; 9].
Proof.
  intros Hf Hnz st' stored. subst st'.
  rewrite (poll_user_sends fetch send user st _ Hf). fold stored.
  assert (already_known stored (act_id activityNode) = false <->
          stored = None \/ exists last, stored = Some last /\ last < act_id activityNode)
    as Hnew.
  { rewrite already_known_false. split; intros [?|(last & Hl & H)]; try by left.
    - right. exists last. split; [done|]. destruct H as [->|?]; [|done].
      by apply Hnz.
    - right. exists last. split; [done|]. by right. }
  assert (already_known stored (act_id activityNode) = true <->
          exists last, stored = Some last /\ act_id activityNode <= last) as Hold.
  { rewrite already_known_true. split; intros (last & Hl & H).
    - exists last. split; [done | by destruct H].
    - exists last. repeat split; try done. intros ->. specialize (Hnz Hl). lia. }
  rewrite <- Hnew, <- Hold.
  destruct (already_known _ _); repeat split; try done.
  - intros H%app_inv_head. done.
  - by rewrite app_nil_r.
  - intros H. symmetry in H. rewrite <- (app_nil_r (sends (trace st))) in H at 1.
    apply app_inv_head in H. done.
Qed.

(** C8.  When the poller finds the fetched activity new, the assignment
    to [lastActivityId] comes before the call of [channel.send] in the
    order of effects, and the ledger holds the new identifier whether the
    send is delivered or refused.  The same activity fetched again is then
    not sent again: in the next cycle when its identifier is not zero, and
    after any number of further poll cycles when it is positive, as the
    identifiers AniList issues are. *)
Theorem ledger_before_send fetch send user st activityNode :
  fetch (prop user "id") = Latest activityNode ->
  already_known (lastActivityId st !! account user) (act_id activityNode) = false ->
  let st' := poll_user fetch send user st in
  let username := account user in
  let currentId := act_id activityNode in
  (exists delivered line,
      trace st' = trace st ++
        [Remember username currentId;
         Send (render username activityNode) delivered; Log line])
  /\ (forall msg,
        send (render username activityNode) = SendFailed msg ->
        trace st' = trace st ++
          [Remember username currentId;
           Send (render username activityNode) false;
           Log (LogAniListError username msg)])
  /\ lastActivityId st' !! username = Some currentId
  /\ (currentId <> 0 ->
      forall fetch' send',
        fetch' (prop user "id") = Latest activityNode ->
        sends (trace (poll_user fetch' send' user st')) = sends (trace st'))
  /\ (0 < currentId ->
      forall channel fetches fetch' send',
        fetch' (prop user "id") = Latest activityNode ->
        let later := poll_cycles channel fetches st' in
        sends (trace (poll_user fetch' send' user later)) = sends (trace later)).
Proof.
  intros Hf Hnew st' username currentId.
  pose proof (poll_user_latest fetch send user st _ Hf) as H. cbv zeta in H.
  rewrite Hnew in H. fold st' username currentId in H.
  destruct H as (delivered & line & Ht & Hl & _).
  assert (lastActivityId st' !! username = Some currentId) as Hstored.
  { rewrite Hl. apply lookup_insert_eq. }
  split; [by eauto|]. split; [|split; [done|split]].
  - intros msg Hs. subst st' username currentId. unfold poll_user.
    rewrite Hf. fold (account user). rewrite Hnew, Hs. cbn.
    by rewrite <- !app_assoc.
  - intros Hnz fetch' send' Hf'.
    rewrite (poll_user_sends fetch' send' user st' _ Hf').
    fold username currentId. rewrite Hstored. cbn.
    assert ((currentId =? 0) = false) as -> by by apply Z.eqb_neq.
    assert ((currentId >=? currentId) = true) as -> by (apply Z.geb_le; lia).
    cbn. by rewrite app_nil_r.
  - intros Hpos channel fetches fetch' send' Hf' later.
    rewrite (poll_user_sends fetch' send' user later _ Hf').
    assert (remembered username currentId later) as (last & Hlast & Hle).
    { apply poll_cycles_remembered; [done|]. exists currentId. split; [done | lia]. }
    fold username currentId. rewrite Hlast. cbn.
    assert ((last =? 0) = false) as -> by (apply Z.eqb_neq; lia).
    assert ((last >=? currentId) = true) as -> by (apply Z.geb_le; lia).
    cbn. by rewrite app_nil_r.
Qed.

(** C7.  In one poll cycle every linked account gets its turn, in store
    order, each turn ending in one console line for that account,
    whatever the requests for the accounts return; and an account whose
    name no other entry bears and whose request brings a new activity has
    that notification handed to the channel and its identifier stored,
    whatever happens (rejections and empty answers included) to the
    requests of the accounts before and after it. *)
Theorem poll_cycle_isolated fetch send st l1 user l2 activityNode :
  obj_values (anilistUsers st) = l1 ++ user :: l2 ->
  account user ∉ map account (l1 ++ l2) ->
  fetch (prop user "id") = Latest activityNode ->
  already_known (lastActivityId st !! account user) (act_id activityNode) = false ->
  let st' := fetchAndPostActivity fetch (Some send) st in
  (exists evs,
      trace st' = trace st ++ evs
      /\ omap log_account evs = map account (l1 ++ user :: l2))
  /\ render (account user) activityNode ∈ sends (trace st')
  /\ lastActivityId st' !! account user = Some (act_id activityNode).
Proof.
  intros Hu Hfresh Hf Hnew st'.
  assert (st' = poll_users fetch send (l1 ++ user :: l2) st) as ->.
  { subst st'. unfold fetchAndPostActivity. rewrite Hu. by destruct l1. }
  rewrite fmap_app, not_elem_of_app in Hfresh. destruct Hfresh as [Hl1 Hl2].
  split; [apply poll_users_trace|].
  rewrite poll_users_app.
  set (st1 := poll_users fetch send l1 st).
  change (poll_users fetch send (user :: l2) st1)
    with (poll_users fetch send l2 (poll_user fetch send user st1)).
  set (st2 := poll_user fetch send user st1).
  assert (lastActivityId st1 !! account user = lastActivityId st !! account user) as H1
    by by apply poll_users_ledger_other.
  pose proof (poll_user_latest fetch send user st1 _ Hf) as H. cbv zeta in H.
  rewrite H1, Hnew in H. fold st2 in H. destruct H as (d & line & Ht & Hl & _).
  split.
  - destruct (poll_users_trace fetch send l2 st2) as (evs & -> & _).
    rewrite Ht, !sends_app. cbn. set_solver.
  - rewrite poll_users_ledger_other by done. rewrite Hl. apply lookup_insert_eq.
Qed.

(** ** Linking and unlinking *)

Lemma messageCreate_link m st usernameToLink :
  is_link_command m usernameToLink ->
  messageCreate m st =
  match find_existing usernameToLink (obj_get (author_id m) (anilistUsers st))
          (obj_values (anilistUsers st)) with
  | None => Threw st
  | Some (Some _) => Returned (emit (Reply (ReplyAlreadyLinked usernameToLink)) st)
  | Some None => Requested (author_id m) usernameToLink st
  end.
Proof.
  intros (Hb & Hp & p0 & p1 & Hs). unfold messageCreate.
  by rewrite Hb, Hp, Hs.
Qed.





Lemma messageCreate_unlink m st :
  is_unlink_command m ->
  messageCreate m st =
  let anilistUser := obj_get (author_id m) (anilistUsers st) in
  if truthy anilistUser then
    let name := account anilistUser in
    Returned
      (emit (Reply (ReplyUnlinked name))
         (saveUsers
            (set_users (obj_delete (author_id m) (anilistUsers st))
               (emit (Forget name)
                  (set_ledger (delete name (lastActivityId st)) st)))))
  else Returned (emit (Reply ReplyNotLinked) st).
Proof.
  intros (Hb & Hc). unfold messageCreate. rewrite Hb.
  by destruct Hc as [-> | ->].
Qed.

(** C5.  The unlink command of a caller whose Discord id has an entry
    deletes that entry from [anilistUsers] and the entry under the
    link's name from [lastActivityId], leaves every other entry of both
    maps alone, writes the store to [users.json] once and replies that the
    account is unlinked; the same command again is then answered with the
    not-linked reply.  The unlink command of a caller without an entry
    changes neither map, writes nothing and replies not-linked. *)
Theorem unlink_removes_both m st :
  is_unlink_command m ->
  let discordId := author_id m in
  (forall anilistUser,
      obj_lookup discordId (anilistUsers st) = Some anilistUser ->
      truthy anilistUser = true ->
      exists st',
        messageCreate m st = Returned st'
        /\ obj_lookup discordId (anilistUsers st') = None
        /\ lastActivityId st' !! account anilistUser = None
        /\ (forall d, d <> discordId ->
              obj_lookup d (anilistUsers st') = obj_lookup d (anilistUsers st))
        /\ (forall n, n <> account anilistUser ->
              lastActivityId st' !! n = lastActivityId st !! n)
        /\ usersFile st' = Json (JObj (anilistUsers st'))
        /\ writes (trace st') = writes (trace st) ++ [anilistUsers st']
        /\ replies (trace st') = replies (trace st) ++ [ReplyUnlinked (account anilistUser)]
        /\ messageCreate m st' = Returned (emit (Reply ReplyNotLinked) st'))
  /\ (obj_lookup discordId (anilistUsers st) = None ->
      exists st',
        messageCreate m st = Returned st'
        /\ anilistUsers st' = anilistUsers st
        /\ lastActivityId st' = lastActivityId st
        /\ usersFile st' = usersFile st
        /\ writes (trace st') = writes (trace st)
        /\ replies (trace st') = replies (trace st) ++ [ReplyNotLinked]).
Proof.
  intros Hm discordId. split.
  - intros anilistUser Hu Ht. eexists. split.
    { rewrite (messageCreate_unlink m st Hm). cbv zeta.
      unfold obj_get. fold discordId. rewrite Hu. simpl. rewrite Ht. reflexivity. }
    cbn. repeat split.
    + apply obj_lookup_delete_eq.
    + apply lookup_delete_eq.
    + intros d Hd. apply obj_lookup_delete_ne. congruence.
    + intros n Hn. apply lookup_delete_ne. congruence.
    + rewrite !writes_app. cbn. by rewrite !app_nil_r.
    + rewrite !replies_app. cbn. by rewrite !app_nil_r.
    + rewrite (messageCreate_unlink m _ Hm). cbv zeta. cbn.
      unfold obj_get. fold discordId. by rewrite obj_lookup_delete_eq.
  - intros Hu. eexists. split.
    { rewrite (messageCreate_unlink m st Hm). cbv zeta.
      unfold obj_get. fold discordId. rewrite Hu. reflexivity. }
    cbn. repeat split.
    + rewrite writes_app. cbn. by rewrite app_nil_r.
    + by rewrite replies_app.
Qed.

(** ** Re-linking *)

Lemma obj_keys_replace k v (o : jsobj) : obj_keys (obj_replace k v o) = obj_keys o.
Proof.
  induction o as [|[k' v'] o IH]; simpl; [done|].
  destruct (String.eqb k k'); simpl; by rewrite ?IH.
Qed.

(** The [then] callback for a found user, in whatever state it runs. *)
Lemma link_settled_user discordId usernameToLink id name st :
  let st' := link_settled discordId usernameToLink (ResolveUser id name) st in
  obj_lookup discordId (anilistUsers st') = Some (link_obj id name)
  /\ (forall d, d <> discordId ->
        obj_lookup d (anilistUsers st') = obj_lookup d (anilistUsers st))
  /\ lastActivityId st' = lastActivityId st
  /\ usersFile st' = Json (JObj (anilistUsers st'))
  /\ writes (trace st') = writes (trace st) ++ [anilistUsers st']
  /\ replies (trace st') = replies (trace st) ++ [ReplyLinked name id].
Proof.
  cbn. repeat split.
  - apply obj_lookup_set_eq.
  - intros d Hd. apply obj_lookup_set_ne. congruence.
  - rewrite !writes_app. cbn. by rewrite !app_nil_r.
  - rewrite !replies_app. cbn. by rewrite !app_nil_r.
Qed.

(** C6.  When a caller who already has an entry sends the link command
    for a name that passes the collision check and that AniList resolves,
    the entry under the caller's Discord id becomes exactly the resolved
    [{id, name}] object, in the place of the old one (the keys of the store
    and all other entries are as before), the store is written to
    [users.json] and the caller is told of the link. *)
Theorem relink_replaces resolve m st usernameToLink old id name :
  is_link_command m usernameToLink ->
  obj_lookup (author_id m) (anilistUsers st) = Some old ->
  find_existing usernameToLink (obj_get (author_id m) (anilistUsers st))
    (obj_values (anilistUsers st)) = Some None ->
  resolve usernameToLink = ResolveUser id name ->
  let st' := handle resolve m st in
  obj_lookup (author_id m) (anilistUsers st')
  = Some (JObj [("id", JNum id); ("name", JStr name)])
  /\ obj_keys (anilistUsers st') = obj_keys (anilistUsers st)
  /\ (forall d, d <> author_id m ->
        obj_lookup d (anilistUsers st') = obj_lookup d (anilistUsers st))
  /\ usersFile st' = Json (JObj (anilistUsers st'))
  /\ writes (trace st') = writes (trace st) ++ [anilistUsers st']
  /\ replies (trace st') = replies (trace st) ++ [ReplyLinked name id].
Proof.
  intros Hm Hold Hfree Hr st'.
  assert (st' = link_settled (author_id m) usernameToLink (ResolveUser id name) st)
    as ->.
  { subst st'. unfold handle.
    by rewrite (messageCreate_link m st usernameToLink Hm), Hfree, Hr. }
  pose proof (link_settled_user (author_id m) usernameToLink id name st) as H.
  cbv zeta in H. destruct H as (H1 & H2 & _ & H4 & H5 & H6).
  repeat split; try done.
  cbn. unfold obj_set. rewrite Hold. apply obj_keys_replace.
Qed.

(** ** Leaderboard *)

Lemma insert_desc_perm a l : insert_desc a l ≡ₚ a :: l.
Proof.
  induction l as [|b l IH]; simpl; [done|].
  destruct (count b - count a >? 0); [|done].
  rewrite IH. apply Permutation_swap.
Qed.

Lemma sort_desc_perm l : sort_desc l ≡ₚ l.
Proof.
  induction l as [|a l IH]; simpl; [done|].
  by rewrite insert_desc_perm, IH.
Qed.

Lemma insert_desc_sorted a l :
  StronglySorted desc l -> StronglySorted desc (insert_desc a l).
Proof.
  induction 1 as [|b l Hs IH Hb]; simpl; [by repeat constructor|].
  destruct (count b - count a >? 0) eqn:Hc.
  - constructor; [done|]. rewrite insert_desc_perm. constructor; [|done].
    unfold desc. apply Z.gtb_lt in Hc. lia.
  - assert (count b <= count a) as Hle.
    { destruct (Z.gtb_spec (count b - count a) 0); [done | lia]. }
    constructor; [by constructor|]. constructor; [done|].
    eapply Forall_impl; [exact Hb|]. unfold desc. intros x ?. simpl in *. lia.
Qed.

Lemma sort_desc_sorted l : StronglySorted desc (sort_desc l).
Proof.
  induction l as [|a l IH]; simpl; [constructor|]. by apply insert_desc_sorted.
Qed.

(** Entries with the same count keep the order they came in. *)
Lemma insert_desc_stable c a l :
  filter (fun s => count s = c) (insert_desc a l) =
  filter (fun s => count s = c) (a :: l).
Proof.
  induction l as [|b l IH]; simpl; [done|].
  destruct (count b - count a >? 0) eqn:Hc; [|done].
  apply Z.gtb_lt in Hc. rewrite !filter_cons, IH, !filter_cons.
  destruct (decide (count b = c)), (decide (count a = c)); try done. lia.
Qed.

Lemma sort_desc_stable c l :
  filter (fun s => count s = c) (sort_desc l) = filter (fun s => count s = c) l.
Proof.
  induction l as [|a l IH]; simpl; [done|].
  by rewrite insert_desc_stable, !filter_cons, IH.
Qed.



(** * Further properties *)

(** Project a trace that ends in literal events. *)
Ltac trace_simpl :=
  cbn; rewrite ?sends_app, ?writes_app, ?replies_app; cbn;
  rewrite <- ?app_assoc, ?app_nil_r; cbn.

Lemma omap_ext_in {A B} (f g : A -> option B) (l : list A) :
  (forall x, x ∈ l -> f x = g x) -> omap f l = omap g l.
Proof.
  induction l as [|x l IH]; intros H; [done|].
  assert (omap f l = omap g l) as E.
  { apply IH. intros y Hy. apply H. by apply list_elem_of_further. }
  change (omap f (x :: l)) with (match f x with Some y => y :: omap f l | None => omap f l end).
  change (omap g (x :: l)) with (match g x with Some y => y :: omap g l | None => omap g l end).
  rewrite E, (H x) by apply list_elem_of_here. done.
Qed.

(** ** Poll cycles as a whole *)

Section cycles.
Variable fetch : jsval -> activity_result.
Variable send : embed -> send_result.

(** The step in terms of [fresh] and [noted]: what it sends and what it
    stores. *)
Lemma poll_user_fresh user st :
  let st' := poll_user fetch send user st in
  sends (trace st') =
    sends (trace st)
    ++ option_list (render (account user) <$> fresh fetch (lastActivityId st) user)
  /\ lastActivityId st' =
     match noted fetch (lastActivityId st) user with
     | Some id => <[account user := id]> (lastActivityId st)
     | None => lastActivityId st
     end.
Proof.
  cbv zeta. unfold poll_user, fresh, noted. fold (account user).
  destruct (fetch _) as [msg| |a|id msg]; cbn; [by trace_simpl..| |].
  - destruct (already_known _ _); cbn; [by trace_simpl|].
    destruct (send _); cbn; by trace_simpl.
  - destruct (already_known _ _); cbn; by trace_simpl.
Qed.

Lemma fresh_ledger_ext ledger1 ledger2 user :
  ledger1 !! account user = ledger2 !! account user ->
  fresh fetch ledger1 user = fresh fetch ledger2 user.
Proof. intros H. unfold fresh. by rewrite H. Qed.

Lemma noted_ledger_ext ledger1 ledger2 user :
  ledger1 !! account user = ledger2 !! account user ->
  noted fetch ledger1 user = noted fetch ledger2 user.
Proof. intros H. unfold noted. by rewrite H. Qed.

Lemma poll_users_fresh l : forall st,
  NoDup (map account l) ->
  let st' := poll_users fetch send l st in
  sends (trace st') =
    sends (trace st)
    ++ omap (fun user => render (account user) <$> fresh fetch (lastActivityId st) user) l
  /\ (forall user, user ∈ l ->
        lastActivityId st' !! account user =
        match noted fetch (lastActivityId st) user with
        | Some id => Some id
        | None => lastActivityId st !! account user
        end).
Proof.
  induction l as [|u l IH]; intros st Hnd; cbv zeta.
  - split; [by rewrite app_nil_r | by intros ? ?%elem_of_nil].
  - simpl in Hnd. apply NoDup_cons in Hnd as [Hu Hnd].
    change (poll_users fetch send (u :: l) st)
      with (poll_users fetch send l (poll_user fetch send u st)).
    set (st1 := poll_user fetch send u st).
    destruct (IH st1 Hnd) as [Hs Hl]. fold st1 in Hs, Hl.
    destruct (poll_user_fresh u st) as [Hs1 Hl1]. fold st1 in Hs1, Hl1.
    assert (forall user, user ∈ l ->
              lastActivityId st1 !! account user = lastActivityId st !! account user)
      as Hsame.
    { intros user Hin. apply poll_user_ledger_other. intros Heq.
      apply Hu. rewrite <- Heq. by apply list_elem_of_fmap_2. }
    split.
    + rewrite Hs, Hs1, <- app_assoc. f_equal. simpl.
      assert (omap (fun user => render (account user) <$> fresh fetch (lastActivityId st1) user) l
              = omap (fun user => render (account user) <$> fresh fetch (lastActivityId st) user) l)
        as ->.
      { apply omap_ext_in. intros user Hin. by rewrite (fresh_ledger_ext _ (lastActivityId st)) by auto. }
      by destruct (fresh fetch (lastActivityId st) u).
    + intros user [->|Hin]%elem_of_cons.
      * rewrite poll_users_ledger_other by done. rewrite Hl1.
        destruct (noted _ _ u); [apply lookup_insert_eq | done].
      * rewrite (Hl user Hin), (noted_ledger_ext _ (lastActivityId st)) by auto.
        destruct (noted _ _ user); [done|]. auto.
Qed.
End cycles.

Lemma poll_user_quiet fetch send user st :
  writes (trace (poll_user fetch send user st)) = writes (trace st)
  /\ replies (trace (poll_user fetch send user st)) = replies (trace st).
Proof.
  unfold poll_user. destruct (fetch _); [by trace_simpl..| |].
  - destruct (already_known _ _); [by trace_simpl|].
    destruct (send _); by trace_simpl.
  - destruct (already_known _ _); by trace_simpl.
Qed.

Lemma poll_users_quiet fetch send l : forall st,
  anilistUsers (poll_users fetch send l st) = anilistUsers st
  /\ usersFile (poll_users fetch send l st) = usersFile st
  /\ writes (trace (poll_users fetch send l st)) = writes (trace st)
  /\ replies (trace (poll_users fetch send l st)) = replies (trace st).
Proof.
  induction l as [|u l IH]; intros st; [done|].
  change (poll_users fetch send (u :: l) st)
    with (poll_users fetch send l (poll_user fetch send u st)).
  destruct (IH (poll_user fetch send u st)) as (-> & -> & -> & ->).
  destruct (poll_user_store fetch send u st) as [-> ->].
  destruct (poll_user_quiet fetch send u st) as [-> ->]. done.
Qed.

Lemma fetchAndPostActivity_quiet fetch channel st :
  anilistUsers (fetchAndPostActivity fetch channel st) = anilistUsers st
  /\ usersFile (fetchAndPostActivity fetch channel st) = usersFile st
  /\ writes (trace (fetchAndPostActivity fetch channel st)) = writes (trace st)
  /\ replies (trace (fetchAndPostActivity fetch channel st)) = replies (trace st).
Proof.
  unfold fetchAndPostActivity.
  destruct (obj_values (anilistUsers st)) as [|u l] eqn:Hu; [by trace_simpl|].
  destruct channel as [send|]; [|by trace_simpl].
  rewrite <- Hu. apply poll_users_quiet.
Qed.

(** X1.  With the channel at hand and no two entries of the store under
    the same account name, one poll cycle hands to the channel, in store
    order, exactly the activities that are fresh against the ledger as it
    was when the cycle began.  Afterwards the ledger holds, under each
    account, the identifier noted for it: that of the fetched node when
    the ledger did not know it, whether the node was handed to the
    channel or its embed could not be built; it is as before for every
    other account and every other name. *)
Theorem poll_cycle_output fetch send st :
  NoDup (map account (obj_values (anilistUsers st))) ->
  let userObjects := obj_values (anilistUsers st) in
  let st' := fetchAndPostActivity fetch (Some send) st in
  sends (trace st') =
    sends (trace st)
    ++ omap (fun user => render (account user) <$> fresh fetch (lastActivityId st) user)
         userObjects
  /\ (forall user, user ∈ userObjects ->
        lastActivityId st' !! account user =
        match noted fetch (lastActivityId st) user with
        | Some id => Some id
        | None => lastActivityId st !! account user
        end)
  /\ (forall n, n ∉ map account userObjects ->
        lastActivityId st' !! n = lastActivityId st !! n).
Proof.
  intros Hnd userObjects st'. subst st'. unfold fetchAndPostActivity.
  fold userObjects. fold userObjects in Hnd.
  destruct userObjects as [|u l] eqn:Hu.
  - repeat split; [by trace_simpl | by intros ? ?%elem_of_nil].
  - destruct (poll_users_fresh fetch send (u :: l) st Hnd) as [Hs Hl].
    repeat split; [done | done |].
    intros n Hn. by apply poll_users_ledger_other.
Qed.

(** X2.  A poll cycle that finds no linked account, or no notification
    channel, requests nothing and records nothing: it prints one line and
    leaves the store, the ledger, the file and the channel alone, so no
    activity is marked as seen without having been posted. *)
Theorem poll_cycle_idle fetch channel st :
  obj_values (anilistUsers st) = [] \/ channel = None ->
  let st' := fetchAndPostActivity fetch channel st in
  (exists line, trace st' = trace st ++ [Log line])
  /\ lastActivityId st' = lastActivityId st
  /\ anilistUsers st' = anilistUsers st
  /\ usersFile st' = usersFile st.
Proof.
  intros H st'. subst st'. unfold fetchAndPostActivity.
  destruct (obj_values (anilistUsers st)) as [|u l] eqn:Hu.
  - repeat split. by eexists.
  - destruct H as [?| ->]; [done|]. repeat split. by eexists.
Qed.

Lemma polling_quiet channel fetches : forall st,
  anilistUsers (poll_cycles channel fetches st) = anilistUsers st
  /\ usersFile (poll_cycles channel fetches st) = usersFile st
  /\ writes (trace (poll_cycles channel fetches st)) = writes (trace st)
  /\ replies (trace (poll_cycles channel fetches st)) = replies (trace st).
Proof.
  induction fetches as [|fetch fetches IH]; intros st; [done|].
  change (poll_cycles channel (fetch :: fetches) st)
    with (poll_cycles channel fetches (fetchAndPostActivity fetch channel st)).
  destruct (IH (fetchAndPostActivity fetch channel st)) as (-> & -> & -> & ->).
  apply fetchAndPostActivity_quiet.
Qed.

(** X3.  Polling never touches the account store: after any number of
    cycles, whatever AniList and the channel answer, [anilistUsers] and
    [users.json] are as before, nothing has been written to the file and
    no reply has been sent. *)
Theorem polling_preserves_store channel fetches : forall st,
  let st' := poll_cycles channel fetches st in
  anilistUsers st' = anilistUsers st
  /\ usersFile st' = usersFile st
  /\ writes (trace st') = writes (trace st)
  /\ replies (trace st') = replies (trace st).
Proof. intros st. apply polling_quiet. Qed.

(** X4.  A positive identifier stored under a name never goes down:
    after any number of poll cycles the ledger still holds, under that
    name, an identifier at least as large. *)
Theorem ledger_never_decreases channel fetches st n last :
  lastActivityId st !! n = Some last ->
  0 < last ->
  exists last',
    lastActivityId (poll_cycles channel fetches st) !! n = Some last'
    /\ last <= last'.
Proof.
  intros Hl Hpos.
  apply (poll_cycles_remembered channel fetches n last st Hpos).
  exists last. split; [done | lia].
Qed.

(** ** Repeating a cycle *)

Section repeat.
Variable fetch : jsval -> activity_result.
Hypothesis fetch_positive : positive_ids fetch.

Lemma poll_user_settles send user st id :
  fetched_id (fetch (prop user "id")) = Some id ->
  remembered (account user) id (poll_user fetch send user st).
Proof.
  intros Hf. pose proof (poll_user_fresh fetch send user st) as H.
  cbv zeta in H. destruct H as [_ Hl].
  unfold noted in Hl. rewrite Hf in Hl. unfold remembered.
  destruct (already_known _ _) eqn:Hk.
  - rewrite Hl. apply already_known_true in Hk as (last & Hlast & _ & Hle).
    by exists last.
  - exists id. rewrite Hl, lookup_insert_eq. split; [done | lia].
Qed.

Lemma poll_users_settles send l : forall st user id,
  user ∈ l ->
  fetched_id (fetch (prop user "id")) = Some id ->
  remembered (account user) id (poll_users fetch send l st).
Proof.
  induction l as [|u l IH]; intros st user id Hin Hf; [by apply elem_of_nil in Hin|].
  change (poll_users fetch send (u :: l) st)
    with (poll_users fetch send l (poll_user fetch send u st)).
  apply elem_of_cons in Hin as [->|Hin]; [|by apply IH].
  apply poll_users_remembered; [by eapply fetch_positive|].
  by apply poll_user_settles.
Qed.

Lemma remembered_not_noted user st id :
  fetched_id (fetch (prop user "id")) = Some id ->
  remembered (account user) id st ->
  noted fetch (lastActivityId st) user = None.
Proof.
  intros Hf (last & Hl & Hle). unfold noted. rewrite Hf.
  assert (already_known (lastActivityId st !! account user) id = true)
    as ->; [|done].
  apply already_known_true. exists last. repeat split; [done| |done].
  apply fetch_positive in Hf. lia.
Qed.

Lemma noted_None_fresh ledger user :
  noted fetch ledger user = None -> fresh fetch ledger user = None.
Proof.
  unfold noted, fresh. destruct (fetch _); cbn; try done.
  by destruct (already_known _ _).
Qed.

Lemma poll_users_silent send l : forall st,
  (forall user, user ∈ l -> noted fetch (lastActivityId st) user = None) ->
  lastActivityId (poll_users fetch send l st) = lastActivityId st
  /\ sends (trace (poll_users fetch send l st)) = sends (trace st).
Proof.
  induction l as [|u l IH]; intros st Hall; [done|].
  change (poll_users fetch send (u :: l) st)
    with (poll_users fetch send l (poll_user fetch send u st)).
  destruct (poll_user_fresh fetch send u st) as [Hs Hl].
  rewrite (Hall u) in Hl by apply list_elem_of_here.
  rewrite (noted_None_fresh _ _ (Hall u (list_elem_of_here _ _))) in Hs.
  simpl in Hs. rewrite app_nil_r in Hs.
  destruct (IH (poll_user fetch send u st)) as [-> ->]; [|done].
  intros user Hin. rewrite Hl. apply Hall. by apply list_elem_of_further.
Qed.
End repeat.

(** X5.  When the identifiers AniList reports are positive, a poll cycle
    run again with the same answers posts nothing and leaves the ledger
    as the first run left it, whether or not the first run's sends were
    delivered. *)
Theorem repeated_cycle_silent fetch send send' st :
  positive_ids fetch ->
  let st1 := fetchAndPostActivity fetch (Some send) st in
  let st2 := fetchAndPostActivity fetch (Some send') st1 in
  sends (trace st2) = sends (trace st1)
  /\ lastActivityId st2 = lastActivityId st1.
Proof.
  intros Hpos st1 st2.
  assert (anilistUsers st1 = anilistUsers st) as Hu
    by apply fetchAndPostActivity_quiet.
  subst st2. unfold fetchAndPostActivity. rewrite Hu.
  destruct (obj_values (anilistUsers st)) as [|u l] eqn:Hl; [by trace_simpl|].
  destruct (poll_users_silent fetch send' (u :: l) st1) as [-> ->]; [|done].
  intros user Hin.
  destruct (fetched_id (fetch (prop user "id"))) as [id|] eqn:Hf;
    [|by unfold noted; rewrite Hf].
  apply (remembered_not_noted fetch Hpos user st1 id Hf).
  subst st1. unfold fetchAndPostActivity. rewrite Hl.
  by apply poll_users_settles.
Qed.

(** ** The identifiers posted for one account *)

Lemma remembers_app n t1 t2 : remembers n (t1 ++ t2) = remembers n t1 ++ remembers n t2.
Proof. apply omap_app. Qed.

Lemma remembers_Remember n n' id t :
  remembers n (Remember n' id :: t) =
  (if String.eqb n n' then [id] else []) ++ remembers n t.
Proof. unfold remembers. cbn. by destruct (String.eqb n n'). Qed.

Lemma StronglySorted_snoc (l : list Z) c :
  StronglySorted Z.lt l -> Forall (fun x => x < c) l -> StronglySorted Z.lt (l ++ [c]).
Proof.
  induction 1 as [|a l Hs IH Ha]; intros Hc; simpl.
  - repeat constructor.
  - apply Forall_cons in Hc as [Hac Hc]. constructor; [by apply IH|].
    apply Forall_app. split; [done | by constructor].
Qed.

Lemma tracks_log base rs stored : tracks base rs stored -> tracks base (rs ++ []) stored.
Proof. by rewrite app_nil_r. Qed.

Lemma tracks_push base rs stored cur :
  tracks base rs stored ->
  0 < cur ->
  already_known stored cur = false ->
  tracks base (rs ++ [cur]) (Some cur).
Proof.
  intros (Hs & Hp & Hl) Hpos Hnew. apply already_known_false in Hnew.
  assert (Forall (fun x => x < cur) rs
          /\ forall last, base = Some last -> last <> 0 -> last < cur) as [Hlt Hb].
  { destruct Hl as [[-> ->]|(top & -> & Hin & Htop)].
    - split; [constructor|]. intros last ->.
      destruct Hnew as [|(l & [= <-] & Hl)]; [done|]. lia.
    - destruct Hnew as [|(l & [= <-] & Hl)]; [done|].
      rewrite Forall_forall in Hp. destruct (Hp top Hin) as [Htp Htb].
      assert (top < cur) by lia. split.
      + eapply Forall_impl; [exact Htop|]. simpl. lia.
      + intros last Hbase Hnz. specialize (Htb last Hbase Hnz). lia. }
  repeat split.
  - by apply StronglySorted_snoc.
  - apply Forall_app. split; [done|]. by repeat constructor.
  - right. exists cur. repeat split.
    + apply elem_of_app. right. apply list_elem_of_here.
    + apply Forall_app. split; [|by repeat constructor].
      eapply Forall_impl; [exact Hlt|]. simpl. lia.
Qed.

Section increase.
Variable n : string.
Variable base : option Z.
Variable t0 : list event.

Lemma poll_user_grown fetch send user st :
  positive_ids fetch -> grown n base t0 st -> grown n base t0 (poll_user fetch send user st).
Proof.
  intros Hpos (evs & Ht & Htr). unfold grown, poll_user. fold (account user).
  destruct (fetch _) as [msg| |a|id msg] eqn:Hf.
  - eexists. cbn. rewrite Ht, <- app_assoc. split; [done|].
    rewrite remembers_app. by apply tracks_log.
  - eexists. cbn. rewrite Ht, <- app_assoc. split; [done|].
    rewrite remembers_app. by apply tracks_log.
  - destruct (already_known _ _) eqn:Hk.
    + eexists. cbn. rewrite Ht, <- app_assoc. split; [done|].
      rewrite remembers_app. by apply tracks_log.
    + assert (exists e1 e2,
                trace (match send (render (account user) a) with
                       | Delivered =>
                           emit (Log (LogPosted (account user)))
                             (emit (Send (render (account user) a) true)
                                (emit (Remember (account user) (act_id a))
                                   (set_ledger (<[account user := act_id a]> (lastActivityId st)) st)))
                       | SendFailed msg =>
                           emit (Log (LogAniListError (account user) msg))
                             (emit (Send (render (account user) a) false)
                                (emit (Remember (account user) (act_id a))
                                   (set_ledger (<[account user := act_id a]> (lastActivityId st)) st)))
                       end)
                = t0 ++ (evs ++ [Remember (account user) (act_id a); e1; e2])
                /\ log_account e1 = None /\ remembers n [e1; e2] = []) as (e1 & e2 & Hev & _ & Hr).
      { destruct (send _); eexists _, _; cbn; rewrite Ht, <- !app_assoc; done. }
      exists (evs ++ [Remember (account user) (act_id a); e1; e2]).
      split; [exact Hev|].
      rewrite remembers_app.
      rewrite remembers_Remember, Hr, app_nil_r.
      assert (lastActivityId
                (match send (render (account user) a) with
                 | Delivered =>
                     emit (Log (LogPosted (account user)))
                       (emit (Send (render (account user) a) true)
                          (emit (Remember (account user) (act_id a))
                             (set_ledger (<[account user := act_id a]> (lastActivityId st)) st)))
                 | SendFailed msg =>
                     emit (Log (LogAniListError (account user) msg))
                       (emit (Send (render (account user) a) false)
                          (emit (Remember (account user) (act_id a))
                             (set_ledger (<[account user := act_id a]> (lastActivityId st)) st)))
                 end) = <[account user := act_id a]> (lastActivityId st)) as ->
        by by destruct (send _).
      destruct (String.eqb_spec n (account user)) as [->|Hne].
      * rewrite lookup_insert_eq. eapply tracks_push; [exact Htr| |done].
        apply (Hpos (prop user "id")). by rewrite Hf.
      * rewrite lookup_insert_ne by done. by rewrite app_nil_r.
  - destruct (already_known _ _) eqn:Hk.
    + eexists. cbn. rewrite Ht, <- app_assoc. split; [done|].
      rewrite remembers_app. by apply tracks_log.
    + exists (evs ++ [Remember (account user) id; Log (LogAniListError (account user) msg)]).
      cbn. rewrite Ht, <- !app_assoc. split; [done|].
      rewrite remembers_app, remembers_Remember. cbn. rewrite app_nil_r.
      destruct (String.eqb_spec n (account user)) as [->|Hne].
      * rewrite lookup_insert_eq. eapply tracks_push; [exact Htr| |done].
        apply (Hpos (prop user "id")). by rewrite Hf.
      * rewrite lookup_insert_ne by done. by rewrite app_nil_r.
Qed.

Lemma poll_users_grown fetch send l : forall st,
  positive_ids fetch -> grown n base t0 st -> grown n base t0 (poll_users fetch send l st).
Proof.
  induction l as [|u l IH]; intros st Hpos Hg; [done|].
  apply (IH (poll_user fetch send u st)); [done|]. by apply poll_user_grown.
Qed.

Lemma fetchAndPostActivity_grown fetch channel st :
  positive_ids fetch -> grown n base t0 st -> grown n base t0 (fetchAndPostActivity fetch channel st).
Proof.
  intros Hpos Hg. unfold fetchAndPostActivity.
  destruct (obj_values (anilistUsers st)) as [|u l] eqn:Hu.
  - destruct Hg as (evs & Ht & Htr). exists (evs ++ [Log LogNoUsers]). cbn.
    rewrite Ht, <- app_assoc. split; [done|].
    rewrite remembers_app. by apply tracks_log.
  - destruct channel as [send|]; [by apply poll_users_grown|].
    destruct Hg as (evs & Ht & Htr). exists (evs ++ [Log LogNoChannel]). cbn.
    rewrite Ht, <- app_assoc. split; [done|].
    rewrite remembers_app. by apply tracks_log.
Qed.

Lemma poll_cycles_grown channel fetches : forall st,
  Forall positive_ids fetches -> grown n base t0 st -> grown n base t0 (poll_cycles channel fetches st).
Proof.
  induction fetches as [|fetch fetches IH]; intros st Hall Hg; [done|].
  apply Forall_cons in Hall as [Hpos Hall].
  apply (IH (fetchAndPostActivity fetch channel st)); [done|].
  by apply fetchAndPostActivity_grown.
Qed.
End increase.

(** X6.  When the identifiers AniList reports are positive, the
    identifiers assigned to the ledger under one name during any number of
    poll cycles go up strictly, each exceeds a non-zero identifier stored
    there before the cycles, and the last of them is what the ledger holds
    in the end (the ledger entry is untouched when there is none). *)
Theorem notified_ids_increase channel fetches st n :
  Forall positive_ids fetches ->
  let st' := poll_cycles channel fetches st in
  exists evs,
    trace st' = trace st ++ evs
    /\ StronglySorted Z.lt (remembers n evs)
    /\ (forall id last,
          id ∈ remembers n evs ->
          lastActivityId st !! n = Some last -> last <> 0 -> last < id)
    /\ lastActivityId st' !! n =
       match last (remembers n evs) with
       | Some id => Some id
       | None => lastActivityId st !! n
       end.
Proof.
  intros Hall st'. subst st'.
  destruct (poll_cycles_grown n (lastActivityId st !! n) (trace st) channel fetches st Hall)
    as (evs & Ht & Hs & Hp & Hl).
  { exists []. rewrite app_nil_r. split; [done|]. repeat split; [constructor..|by left]. }
  exists evs. split; [exact Ht|]. split; [exact Hs|]. split.
  - intros id last Hin Hlast Hnz. rewrite Forall_forall in Hp.
    by apply (Hp id Hin).
  - destruct Hl as [[-> ->]|(top & -> & Hin & Htop)]; [done|].
    assert (last (remembers n evs) = Some top) as ->; [|done].
    destruct (last (remembers n evs)) as [x|] eqn:Hx.
    + f_equal. apply last_Some in Hx as [l' Hl'].
      assert (top <= x).
      { rewrite Hl' in Hin. apply elem_of_app in Hin as [Hin|Hin%list_elem_of_singleton]; [|lia].
        rewrite Hl' in Hs. clear -Hs Hin.
        induction l' as [|y l' IH]; [by apply elem_of_nil in Hin|].
        simpl in Hs. inversion Hs as [|? ? Hs' Hy]; subst.
        apply elem_of_cons in Hin as [->|Hin]; [|by apply IH].
        apply Forall_app in Hy as [_ Hy]. apply Forall_inv in Hy. lia. }
      assert (x <= top).
      { rewrite Forall_forall in Htop. apply Htop. rewrite Hl'.
        apply elem_of_app. right. apply list_elem_of_here. }
      lia.
    + apply last_None in Hx. rewrite Hx in Hin. by apply elem_of_nil in Hin.
Qed.

(** ** The store stays an object of objects *)

Lemma obj_keys_insert_index i k v (o : jsobj) :
  obj_keys (obj_insert_index i k v o) ≡ₚ k :: obj_keys o.
Proof.
  induction o as [|[k' v'] o IH]; simpl; [done|].
  destruct (array_index k') as [j|]; [destruct (j <? i)%N|]; simpl; try done.
  rewrite IH. apply Permutation_swap.
Qed.

Lemma NoDup_obj_set k v (o : jsobj) :
  NoDup (obj_keys o) -> NoDup (obj_keys (obj_set k v o)).
Proof.
  intros Hnd. unfold obj_set. destruct (obj_lookup k o) eqn:Hk.
  - by rewrite obj_keys_replace.
  - apply obj_lookup_None in Hk. destruct (array_index k).
    + rewrite obj_keys_insert_index. by constructor.
    + unfold obj_keys in *. rewrite map_app. simpl.
      apply NoDup_app. repeat split; [done| |apply NoDup_singleton].
      intros x Hx ->%list_elem_of_singleton. done.
Qed.

Lemma NoDup_obj_delete k (o : jsobj) :
  NoDup (obj_keys o) -> NoDup (obj_keys (obj_delete k o)).
Proof.
  induction o as [|[k' v'] o IH]; simpl; [done|].
  intros [Hk' Hnd]%NoDup_cons. destruct (String.eqb_spec k k') as [->|Hne]; [auto|].
  simpl. constructor; [|auto].
  apply obj_lookup_None. rewrite obj_lookup_delete_ne by done.
  by apply obj_lookup_None.
Qed.

Lemma convert_entries_NoDup resolve rawUsers : forall acc,
  NoDup (obj_keys (convertedUsers acc)) ->
  NoDup (obj_keys (convertedUsers (convert_entries resolve rawUsers acc))).
Proof.
  induction rawUsers as [|[d value] rest IH]; intros acc Hacc; [done|].
  cbn [convert_entries].
  destruct (convert_entry resolve value) as [[sv dirty] ls].
  apply IH. cbn. destruct sv as [v|]; [|done]. by apply NoDup_obj_set.
Qed.

Lemma loadUsers_wf resolve st : store_wf st -> store_wf (loadUsers resolve st).
Proof.
  intros [Hnd Hobj]. split; [|by apply loadUsers_objects].
  unfold loadUsers. destruct (usersFile st) as [| |rawUsers]; [done|constructor|].
  set (c := convert_entries _ _ _).
  assert (NoDup (obj_keys (convertedUsers c))) as Hc.
  { subst c. apply convert_entries_NoDup. constructor. }
  by destruct (requiresSave c).
Qed.

(** What a run of the handler can be, read off its branches. *)
Lemma messageCreate_cases m st :
  messageCreate m st = Returned st
  \/ messageCreate m st = Other st
  \/ messageCreate m st = Threw st
  \/ (exists r, messageCreate m st = Returned (emit (Reply r) st))
  \/ (exists usernameToLink,
        messageCreate m st = Requested (author_id m) usernameToLink st
        /\ is_link_command m usernameToLink
        /\ find_existing usernameToLink (obj_get (author_id m) (anilistUsers st))
             (obj_values (anilistUsers st)) = Some None)
  \/ (is_unlink_command m
      /\ truthy (obj_get (author_id m) (anilistUsers st)) = true
      /\ messageCreate m st =
         let name := account (obj_get (author_id m) (anilistUsers st)) in
         Returned
           (emit (Reply (ReplyUnlinked name))
              (saveUsers
                 (set_users (obj_delete (author_id m) (anilistUsers st))
                    (emit (Forget name)
                       (set_ledger (delete name (lastActivityId st)) st)))))).
Proof.
  unfold messageCreate. destruct (author_bot m) eqn:Hb; [by left|].
  destruct (String.prefix _ _) eqn:Hp.
  - destruct (split_ws (content m)) as [|p0 [|p1 [|t [|]]]] eqn:Hs;
      try (right; right; right; left; by eexists).
    destruct (find_existing _ _ _) as [[u|]|] eqn:Hf.
    + right; right; right; left. by eexists.
    + right; right; right; right; left. exists t. repeat split; eauto.
    + by right; right; left.
  - destruct (_ || _) eqn:Hc; [|by right; left].
    destruct (truthy _) eqn:Ht.
    + right; right; right; right; right. split; [split; [done|]|by split].
      apply orb_true_iff in Hc as [Hc|Hc]; apply String.eqb_eq in Hc; auto.
    + right; right; right; left. by eexists.
Qed.

Lemma handle_wf resolve m st : store_wf st -> store_wf (handle resolve m st).
Proof.
  intros [Hnd Hobj]. split; [|by apply handle_objects].
  unfold handle.
  destruct (messageCreate_cases m st)
    as [->|[->|[->|[[r ->]|[(t & -> & _ & _)|(_ & _ & ->)]]]]]; try done.
  - destruct (resolve t); cbn; [done..|]. by apply NoDup_obj_set.
  - cbn. by apply NoDup_obj_delete.
Qed.

(** X7.  The store stays an object of objects: loading any file with any
    answers from AniList, handling any message and running any poll
    cycles keep its keys distinct and its values objects, so the reads of
    [user.id] and [user.name] in the poller and the commands never meet
    [null] or [undefined]; and the store loaded at start-up is such a
    store, whatever [users.json] holds. *)
Theorem store_stays_wf resolve m channel fetches f st :
  store_wf st ->
  store_wf (loadUsers resolve st)
  /\ store_wf (handle resolve m st)
  /\ store_wf (poll_cycles channel fetches st)
  /\ store_wf (loadUsers resolve (initial f)).
Proof.
  intros Hwf. split; [by apply loadUsers_wf|]. split; [by apply handle_wf|].
  split.
  - destruct Hwf as [Hnd Hobj]. unfold store_wf, store_objects.
    destruct (polling_quiet channel fetches st) as (-> & _). done.
  - apply loadUsers_wf. split; constructor.
Qed.

(** ** What a command can reach *)

(** X8.  A message changes no link but its author's: after the handler
    and, for a link command, its callback, every other Discord id has the
    entry it had; and the only ledger entry a message can change is the
    one under the name of its author's own link. *)
Theorem command_touches_only_author resolve m st :
  let st' := handle resolve m st in
  (forall d, d <> author_id m ->
     obj_lookup d (anilistUsers st') = obj_lookup d (anilistUsers st))
  /\ (forall n, n <> account (obj_get (author_id m) (anilistUsers st)) ->
        lastActivityId st' !! n = lastActivityId st !! n).
Proof.
  cbv zeta. unfold handle.
  destruct (messageCreate_cases m st)
    as [->|[->|[->|[[r ->]|[(t & -> & _ & _)|(_ & _ & ->)]]]]]; try done.
  - destruct (resolve t); cbn; [done..|]. split; [|done].
    intros d Hd. apply obj_lookup_set_ne. congruence.
  - cbn. split.
    + intros d Hd. apply obj_lookup_delete_ne. congruence.
    + intros n Hn. apply lookup_delete_ne. congruence.
Qed.

(** X9.  A link command never changes the ledger, and unless AniList
    answers with a user it changes neither the store nor the file and
    writes nothing: the stale ledger entry of a replaced link stays, and a
    failed or rejected link attempt costs the caller nothing. *)
Theorem link_changes_little resolve m st usernameToLink :
  is_link_command m usernameToLink ->
  let st' := handle resolve m st in
  lastActivityId st' = lastActivityId st
  /\ ((forall id name, resolve usernameToLink <> ResolveUser id name) ->
      anilistUsers st' = anilistUsers st
      /\ usersFile st' = usersFile st
      /\ writes (trace st') = writes (trace st)).
Proof.
  intros Hm st'. subst st'. unfold handle.
  rewrite (messageCreate_link m st usernameToLink Hm).
  destruct (find_existing _ _ _) as [[u|]|]; [by trace_simpl| |done].
  destruct (resolve usernameToLink) as [msg| |id name] eqn:Hr; cbn.
  - split; [done|]. intros _. by trace_simpl.
  - split; [done|]. intros _. by trace_simpl.
  - split; [done|]. intros H. by destruct (H id name).
Qed.

(** ** One link per AniList name *)

Lemma find_existing_none usernameToLink anilistUser users :
  find_existing usernameToLink anilistUser users = Some None ->
  forall user, user ∈ users ->
    name_lower user = Some (toLowerCase usernameToLink) ->
    own_lower anilistUser = Some (toLowerCase usernameToLink).
Proof.
  induction users as [|u users IH]; simpl; [by intros _ ? ?%elem_of_nil|].
  unfold collides at 1.
  destruct (name_lower u) as [n|] eqn:Hn; [|done].
  destruct (String.eqb_spec n (toLowerCase usernameToLink)) as [->|Hne].
  - destruct (own_lower anilistUser) as [own|]; [|done].
    destruct (String.eqb_spec (toLowerCase usernameToLink) own) as [->|?]; [|done].
    done.
  - intros Hf user [->|Hin]%elem_of_cons Hl; [congruence|]. by apply (IH Hf user).
Qed.

Lemma own_lower_linked d (users : jsobj) s :
  own_lower (obj_get d users) = Some s -> s <> "" ->
  exists anilistUser,
    obj_lookup d users = Some anilistUser /\ name_lower anilistUser = Some s.
Proof.
  unfold obj_get. destruct (obj_lookup d users) as [au|]; simpl; [|congruence].
  intros Hown Hs. exists au. split; [done|].
  unfold own_lower in Hown. unfold name_lower.
  destruct au; try congruence;
    destruct (prop _ "name"); simpl in *; congruence.
Qed.

Lemma unique_names_delete d users :
  unique_names users -> unique_names (obj_delete d users).
Proof.
  intros Hu d1 d2 u1 u2 n H1 H2.
  destruct (String.eqb_spec d d1) as [->|Hn1];
    [by rewrite obj_lookup_delete_eq in H1|].
  destruct (String.eqb_spec d d2) as [->|Hn2];
    [by rewrite obj_lookup_delete_eq in H2|].
  rewrite obj_lookup_delete_ne in H1, H2 by done. by eapply Hu.
Qed.

Section folding.

(** Folding turns no string that has characters into the empty one. *)
Hypothesis toLowerCase_nonempty : forall s, toLowerCase s = "" -> s = "".

Lemma unique_names_link d usernameToLink id name users :
  unique_names users ->
  usernameToLink <> "" ->
  toLowerCase name = toLowerCase usernameToLink ->
  find_existing usernameToLink (obj_get d users) (obj_values users) = Some None ->
  unique_names (obj_set d (link_obj id name) users).
Proof.
  intros Hu Hne Hlow Hfree.
  assert (toLowerCase usernameToLink <> "") as Hne'.
  { intros H. by apply Hne, toLowerCase_nonempty. }
  assert (forall d' u, d' <> d -> obj_lookup d' users = Some u ->
            name_lower u = Some (toLowerCase usernameToLink) -> False) as Hclash.
  { intros d' u Hd' Hlk Hn.
    pose proof (find_existing_none _ _ _ Hfree u (obj_lookup_elem _ _ _ Hlk) Hn) as Hown.
    destruct (own_lower_linked d users _ Hown Hne') as (au & Hau & Hna).
    apply Hd'. by apply (Hu d' d u au (toLowerCase usernameToLink)). }
  intros d1 d2 u1 u2 n H1 H2 Hn1 Hn2.
  destruct (decide (d1 = d)) as [->|Hd1], (decide (d2 = d)) as [->|Hd2];
    try done.
  - rewrite obj_lookup_set_eq in H1. rewrite obj_lookup_set_ne in H2 by congruence.
    injection H1 as <-. unfold name_lower in Hn1. simpl in Hn1.
    injection Hn1 as <-. rewrite Hlow in Hn2.
    destruct (Hclash d2 u2 ltac:(congruence) H2 Hn2).
  - rewrite obj_lookup_set_eq in H2. rewrite obj_lookup_set_ne in H1 by congruence.
    injection H2 as <-. unfold name_lower in Hn2. simpl in Hn2.
    injection Hn2 as <-. rewrite Hlow in Hn1.
    destruct (Hclash d1 u1 ltac:(congruence) H1 Hn1).
  - rewrite obj_lookup_set_ne in H1, H2 by congruence. by eapply Hu.
Qed.

(** X10.  One link per AniList name is kept by every message handled to
    its end without interleaving: if no two Discord ids are linked to
    names that agree up to letter case, then after any message they still
    are not, provided that a link command names a non-empty user name and
    AniList answers with that name up to letter case. *)
Theorem names_stay_unique resolve m st :
  unique_names (anilistUsers st) ->
  (forall usernameToLink id name,
      is_link_command m usernameToLink ->
      resolve usernameToLink = ResolveUser id name ->
      usernameToLink <> "" /\ toLowerCase name = toLowerCase usernameToLink) ->
  unique_names (anilistUsers (handle resolve m st)).
Proof.
  intros Hu Hres. unfold handle.
  destruct (messageCreate_cases m st)
    as [->|[->|[->|[[r ->]|[(t & -> & Hm & Hfree)|(_ & _ & ->)]]]]]; try done.
  - destruct (resolve t) as [msg| |id name] eqn:Hr; cbn; [done..|].
    destruct (Hres t id name Hm Hr) as [Hne Hlow].
    by apply (unique_names_link (author_id m) t).
  - cbn. by apply unique_names_delete.
Qed.
End folding.

(** X11.  The check and the update of a link are two steps with the
    AniList request between them: when two different callers ask for the
    same free name and both requests are in flight before either is
    answered, both pass the check and both end up linked to that name,
    so the store no longer has one link per name. *)
Theorem link_race m1 m2 st usernameToLink id name :
  is_link_command m1 usernameToLink ->
  is_link_command m2 usernameToLink ->
  author_id m1 <> author_id m2 ->
  Forall (fun user => exists n, name_lower user = Some n /\ n <> toLowerCase usernameToLink)
    (obj_values (anilistUsers st)) ->
  let d1 := author_id m1 in
  let d2 := author_id m2 in
  let st' :=
    link_settled d2 usernameToLink (ResolveUser id name)
      (link_settled d1 usernameToLink (ResolveUser id name) st) in
  messageCreate m1 st = Requested d1 usernameToLink st
  /\ messageCreate m2 st = Requested d2 usernameToLink st
  /\ obj_lookup d1 (anilistUsers st')
     = Some (JObj [("id", JNum id); ("name", JStr name)])
  /\ obj_lookup d2 (anilistUsers st')
     = Some (JObj [("id", JNum id); ("name", JStr name)])
  /\ ~ unique_names (anilistUsers st').
Proof.
  intros Hm1 Hm2 Hd Hfree d1 d2 st'.
  assert (forall au, find_existing usernameToLink au (obj_values (anilistUsers st))
                     = Some None) as Hnone.
  { intros au. induction Hfree as [|u users (n & Hn & Hne) _ IH]; [done|].
    simpl. unfold collides. rewrite Hn.
    by apply String.eqb_neq in Hne as ->. }
  assert (obj_lookup d1 (anilistUsers st') = Some (link_obj id name)) as H1.
  { subst st'. cbn. rewrite obj_lookup_set_ne by (subst d1 d2; congruence).
    apply obj_lookup_set_eq. }
  assert (obj_lookup d2 (anilistUsers st') = Some (link_obj id name)) as H2.
  { subst st'. cbn. apply obj_lookup_set_eq. }
  split; [by rewrite (messageCreate_link m1 st _ Hm1), Hnone|].
  split; [by rewrite (messageCreate_link m2 st _ Hm2), Hnone|].
  split; [done|]. split; [done|].
  intros Hu. apply Hd. by apply (Hu d1 d2 _ _ (toLowerCase name) H1 H2).
Qed.

(** ** More on loading *)

Lemma loadUsers_quiet resolve st :
  lastActivityId (loadUsers resolve st) = lastActivityId st
  /\ sends (trace (loadUsers resolve st)) = sends (trace st)
  /\ replies (trace (loadUsers resolve st)) = replies (trace st).
Proof.
  unfold loadUsers. destruct (usersFile st) as [| |rawUsers]; [done|by trace_simpl|].
  set (c := convert_entries _ _ _).
  assert (forall ls, sends (map Log ls) = [] /\ replies (map Log ls) = []) as Hlogs.
  { intros ls. by induction ls. }
  destruct (Hlogs (printed c)) as [Hs Hr].
  destruct (requiresSave c); cbn; rewrite !sends_app, !replies_app, Hs, Hr; cbn;
    by rewrite !app_nil_r.
Qed.

(** X13.  Loading invents nothing: when [users.json] parses, every entry
    of the loaded store sits under a key of the document, and is either
    the document's own value there, an object with truthy [id] and
    [name], or the [{id, name}] AniList gave for the bare name there. *)
Theorem loadUsers_sound resolve st rawUsers k v :
  usersFile st = Json rawUsers ->
  NoDup (obj_keys (for_in rawUsers)) ->
  obj_lookup k (anilistUsers (loadUsers resolve st)) = Some v ->
  exists raw,
    obj_lookup k (for_in rawUsers) = Some raw
    /\ ((is_structured raw = true /\ v = raw)
        \/ exists s id name,
             raw = JStr s /\ resolve s = ResolveUser id name /\ v = link_obj id name).
Proof.
  intros Hf Hnd. rewrite (loadUsers_lookup resolve st rawUsers k Hf Hnd).
  destruct (obj_lookup k (for_in rawUsers)) as [raw|]; simpl; [|done].
  intros Hst. exists raw. split; [done|].
  destruct (is_string raw) as [s|] eqn:Hs.
  - destruct raw; try done. injection Hs as ->. rewrite stored_legacy in Hst.
    destruct (resolve s) as [msg| |id name] eqn:Hr; try done.
    injection Hst as <-. right. by exists s, id, name.
  - rewrite stored_other in Hst by done.
    destruct (is_structured raw) eqn:Hv; [|done]. injection Hst as <-. by left.
Qed.

Lemma convert_entries_structured resolve rawUsers : forall acc,
  Forall (fun kv => is_structured kv.2 = true /\ array_index kv.1 = None) rawUsers ->
  NoDup (obj_keys (convertedUsers acc ++ rawUsers)) ->
  convertedUsers (convert_entries resolve rawUsers acc) = convertedUsers acc ++ rawUsers.
Proof.
  induction rawUsers as [|[d value] rest IH]; intros acc Hall Hnd.
  - by rewrite app_nil_r.
  - apply Forall_cons in Hall as [[Hv Hi] Hall]. simpl in Hv, Hi.
    cbn [convert_entries].
    assert (convert_entry resolve value = (Some value, false, [])) as ->.
    { unfold convert_entry. pose proof (is_structured_not_string value Hv).
      destruct value; try done; by rewrite Hv. }
    assert (obj_set d value (convertedUsers acc) = convertedUsers acc ++ [(d, value)])
      as Hset.
    { unfold obj_set.
      assert (obj_lookup d (convertedUsers acc) = None) as ->; [|by rewrite Hi].
      apply obj_lookup_None. unfold obj_keys in Hnd. rewrite map_app in Hnd.
      apply NoDup_app in Hnd as (_ & Hnd & _). intros Hin.
      apply (Hnd d Hin). simpl. apply list_elem_of_here. }
    rewrite IH.
    + cbn [convertedUsers]. by rewrite Hset, <- app_assoc.
    + done.
    + cbn [convertedUsers]. by rewrite Hset, <- app_assoc.
Qed.

(** X14.  What [saveUsers] writes, [loadUsers] reads back: for a store
    with distinct keys whose entries all have truthy [id] and [name],
    saving and then loading gives a store with the same entry under every
    key, without asking AniList anything and without writing the file
    again; when no key is spelt like an array index (Discord ids are
    not), it is the same store, order included. *)
Theorem save_load_roundtrip resolve st :
  NoDup (obj_keys (anilistUsers st)) ->
  Forall (fun v => is_structured v = true) (obj_values (anilistUsers st)) ->
  let st' := loadUsers resolve (saveUsers st) in
  (forall k, obj_lookup k (anilistUsers st') = obj_lookup k (anilistUsers st))
  /\ writes (trace st') = writes (trace st) ++ [anilistUsers st]
  /\ usersFile st' = Json (JObj (anilistUsers st))
  /\ (Forall (fun k => array_index k = None) (obj_keys (anilistUsers st)) ->
      anilistUsers st' = anilistUsers st).
Proof.
  intros Hnd Hall st'.
  assert (usersFile (saveUsers st) = Json (JObj (anilistUsers st))) as Hf by done.
  assert (forall k v, obj_lookup k (anilistUsers st) = Some v -> is_structured v = true)
    as Hlk.
  { intros k v Hk. rewrite Forall_forall in Hall. apply Hall.
    by eapply obj_lookup_elem. }
  pose proof (loadUsers_writes resolve (saveUsers st) _ Hf) as Hw.
  cbv zeta in Hw. simpl for_in in Hw.
  assert (existsb (fun kv => upgraded resolve kv.2) (anilistUsers st) = false) as He.
  { apply not_true_is_false. intros ([k v] & Hin & Hup)%existsb_exists.
    apply upgraded_spec in Hup as (s & id & name & Hv & _). simpl in Hv. subst v.
    assert (is_structured (JStr s) = true) as Hs.
    { apply (Hlk k). apply obj_lookup_NoDup; [done|]. by apply list_elem_of_In. }
    apply is_structured_not_string in Hs. done. }
  rewrite He in Hw. destruct Hw as [Hw1 Hw2].
  split; [|split; [|split]].
  - intros k. subst st'.
    rewrite (loadUsers_lookup resolve (saveUsers st) _ k Hf) by done.
    simpl. destruct (obj_lookup k (anilistUsers st)) as [v|] eqn:Hk; [|done].
    simpl. rewrite stored_other, (Hlk k v Hk); [done|].
    apply is_structured_not_string. by apply (Hlk k v).
  - subst st'. rewrite Hw1. by trace_simpl.
  - subst st'. by rewrite Hw2.
  - intros Hidx. subst st'. unfold loadUsers. rewrite Hf.
    set (c := convert_entries _ _ _).
    assert (convertedUsers c = anilistUsers st) as Hc.
    { subst c. rewrite convert_entries_structured; [done| |done].
      apply Forall_forall. intros [k v] Hin. simpl. split.
      - apply (Hlk k). apply obj_lookup_NoDup; [done | done].
      - rewrite Forall_forall in Hidx. apply Hidx. unfold obj_keys.
        apply list_elem_of_fmap. by exists (k, v). }
    destruct (requiresSave c); cbn; exact Hc.
Qed.

(** X15.  Start-up forgets what was posted: the ledger is empty after
    the load, so when no two loaded entries share an account name the
    first poll cycle posts, in store order, the latest activity of every
    loaded account whose request brings one, and nothing else. *)
Theorem first_cycle_posts_latest resolve fetch send f :
  let loaded := loadUsers resolve (initial f) in
  NoDup (map account (obj_values (anilistUsers loaded))) ->
  sends (trace (clientReady resolve fetch (Some send) f)) =
  omap (fun user =>
          match fetch (prop user "id") with
          | Latest activityNode => Some (render (account user) activityNode)
          | _ => None
          end) (obj_values (anilistUsers loaded)).
Proof.
  intros loaded Hnd. unfold clientReady. fold loaded.
  destruct (loadUsers_quiet resolve (initial f)) as (Hl & Hs & _).
  fold loaded in Hl, Hs. simpl in Hl, Hs.
  assert (sends (trace (fetchAndPostActivity fetch (Some send) loaded)) =
          sends (trace loaded)
          ++ omap (fun user => render (account user) <$> fresh fetch (lastActivityId loaded) user)
               (obj_values (anilistUsers loaded))) as ->.
  { unfold fetchAndPostActivity.
    destruct (obj_values (anilistUsers loaded)) as [|u l] eqn:Hu; [by trace_simpl|].
    by destruct (poll_users_fresh fetch send (u :: l) loaded Hnd). }
  rewrite Hs, Hl. simpl. apply omap_ext_in. intros user _.
  unfold fresh. rewrite lookup_empty. by destruct (fetch _).
Qed.

(** ** More on the ranking *)

Lemma desc_head_max a l x : StronglySorted desc (a :: l) -> x ∈ a :: l -> count x <= count a.
Proof.
  intros Hs [->|Hin]%elem_of_cons; [lia|].
  inversion Hs as [|? ? _ Ha]; subst. rewrite Forall_forall in Ha.
  by apply Ha.
Qed.

Lemma filter_count_head (a : stat) l :
  filter (fun s => count s = count a) (a :: l) = a :: filter (fun s => count s = count a) l.
Proof. rewrite filter_cons. by destruct (decide (count a = count a)). Qed.

(** Two descending arrangements with the same entries of every count,
    in the same order, are the same list. *)
Lemma stable_desc_unique l1 : forall l2,
  StronglySorted desc l1 -> StronglySorted desc l2 ->
  (forall c, filter (fun s => count s = c) l1 = filter (fun s => count s = c) l2) ->
  l1 = l2.
Proof.
  induction l1 as [|a l1 IH]; intros l2 Hs1 Hs2 Hf.
  - destruct l2 as [|b l2]; [done|].
    specialize (Hf (count b)). rewrite filter_count_head in Hf. done.
  - destruct l2 as [|b l2].
    { specialize (Hf (count a)). rewrite filter_count_head in Hf. done. }
    assert (a ∈ b :: l2) as Ha.
    { eapply (list_elem_of_filter (fun s => count s = count a)).
      rewrite <- Hf, filter_count_head. apply list_elem_of_here. }
    assert (b ∈ a :: l1) as Hb.
    { eapply (list_elem_of_filter (fun s => count s = count b)).
      rewrite Hf, filter_count_head. apply list_elem_of_here. }
    assert (count a = count b) as Hc.
    { pose proof (desc_head_max b l2 a Hs2 Ha).
      pose proof (desc_head_max a l1 b Hs1 Hb). lia. }
    assert (a = b) as <-.
    { pose proof (Hf (count a)) as H. rewrite filter_count_head in H.
      rewrite Hc, filter_count_head in H. congruence. }
    f_equal. apply IH.
    + by inversion Hs1.
    + by inversion Hs2.
    + intros c. specialize (Hf c). rewrite !filter_cons in Hf.
      destruct (decide (count a = c)); congruence.
Qed.

(** X16.  The ranking does not depend on how the sort goes about it: any
    arrangement of the valid entries that is descending by count and
    keeps entries of equal count in request order is the one
    [validStats] cuts its ten from. *)
Theorem ranking_is_the_stable_order type responses ranked :
  StronglySorted desc ranked ->
  (forall c,
      filter (fun s => count s = c) ranked =
      filter (fun s => count s = c) (omap (valid_stat type) responses)) ->
  validStats type responses = take 10 ranked.
Proof.
  intros Hs Hf. unfold validStats. f_equal. symmetry.
  apply stable_desc_unique; [done | apply sort_desc_sorted|].
  intros c. by rewrite Hf, sort_desc_stable.
Qed.

Lemma StronglySorted_app_cross {A} (R : A -> A -> Prop) l1 : forall l2 a b,
  StronglySorted R (l1 ++ l2) -> a ∈ l1 -> b ∈ l2 -> R a b.
Proof.
  induction l1 as [|x l1 IH]; intros l2 a b Hs Ha Hb; [by apply elem_of_nil in Ha|].
  simpl in Hs. inversion Hs as [|? ? Hs' Hx]; subst.
  apply elem_of_cons in Ha as [->|Ha]; [|by eapply IH].
  rewrite Forall_forall in Hx. apply Hx. apply elem_of_app. by right.
Qed.

Lemma omap_nil_iff {A B} (f : A -> option B) (l : list A) :
  omap f l = [] <-> Forall (fun x => f x = None) l.
Proof.
  induction l as [|x l IH].
  - split; [constructor | done].
  - change (omap f (x :: l)) with (match f x with Some y => y :: omap f l | None => omap f l end).
    rewrite Forall_cons. destruct (f x) as [y|].
    + split; [done | by intros [? _]].
    + rewrite IH. split; [by split | by intros [_ ?]].
Qed.

(** X17.  The ranking is empty exactly when no answer carries statistics
    (every request failed, found no user, or found a user without
    statistics). *)
Theorem ranking_empty_iff type responses :
  validStats type responses = []
  <-> Forall (fun res => valid_stat type res = None) responses.
Proof.
  rewrite <- omap_nil_iff. unfold validStats.
  set (l := omap (valid_stat type) responses). split.
  - intros Ht. destruct (sort_desc l) as [|a l'] eqn:Hs; [|done].
    symmetry. apply Permutation_nil_l. by rewrite <- Hs, sort_desc_perm.
  - by intros ->.
Qed.

(** X18.  The cut keeps the best: the ranking together with what it
    leaves out is a rearrangement of the valid entries, nothing left out
    has a higher count than anything kept, every kept entry belongs to
    some answer, and with at most ten valid entries nothing is left
    out. *)
Theorem ranking_keeps_largest type responses :
  let valid := omap (valid_stat type) responses in
  exists rest,
    validStats type responses ++ rest ≡ₚ valid
    /\ (forall a b, a ∈ validStats type responses -> b ∈ rest -> count b <= count a)
    /\ (forall a, a ∈ validStats type responses ->
          exists res, res ∈ responses /\ valid_stat type res = Some a)
    /\ List.length (validStats type responses) = Nat.min 10 (List.length valid)
    /\ ((List.length valid <= 10)%nat -> rest = []).
Proof.
  intros valid. exists (drop 10 (sort_desc valid)). unfold validStats. fold valid.
  split; [by rewrite take_drop, sort_desc_perm|].
  split.
  { intros a b Ha Hb.
    apply (StronglySorted_app_cross desc (take 10 (sort_desc valid))
             (drop 10 (sort_desc valid)) a b); [|done..].
    rewrite take_drop. apply sort_desc_sorted. }
  split.
  { intros a Ha.
    assert (a ∈ valid) as Hin.
    { rewrite <- (sort_desc_perm valid).
      apply elem_of_take in Ha as (i & Hi & _). by eapply list_elem_of_lookup_2. }
    subst valid. apply list_elem_of_omap in Hin as (res & Hres & Hv). eauto. }
  assert (List.length (sort_desc valid) = List.length valid) as Hlen
    by by rewrite sort_desc_perm.
  split.
  - by rewrite length_take, Hlen.
  - intros Hle. apply drop_ge. lia.
Qed.

(** ** How the commands are read *)

Lemma append_snoc cur c s : (cur +:+ String c "") +:+ s = cur +:+ String c s.
Proof.
  induction cur as [|c' cur IH]; [done|].
  change (String c' ((cur +:+ String c "") +:+ s) = String c' (cur +:+ String c s)).
  by rewrite IH.
Qed.

Lemma append_nil_r s : s +:+ "" = s.
Proof.
  induction s as [|c s IH]; [done|].
  change (String c (s +:+ "") = String c s). by rewrite IH.
Qed.

Lemma prefix_nil s : String.prefix "" s = true.
Proof. by destruct s. Qed.

Lemma prefix_cons a p b s :
  String.prefix (String a p) (String b s) =
  if Ascii.eqb a b then String.prefix p s else false.
Proof.
  simpl. destruct (ascii_dec a b) as [->|Hne].
  - by rewrite Ascii.eqb_refl.
  - by apply Ascii.eqb_neq in Hne as ->.
Qed.

Lemma prefix_append p s : String.prefix p (p +:+ s) = true.
Proof.
  induction p as [|a p IH]; [apply prefix_nil|].
  change (String.prefix (String a p) (String a (p +:+ s)) = true).
  by rewrite prefix_cons, Ascii.eqb_refl.
Qed.

Lemma prefix_inv p : forall s, String.prefix p s = true -> exists r, s = p +:+ r.
Proof.
  induction p as [|a p IH]; intros s H; [by exists s|].
  destruct s as [|b s]; [done|]. rewrite prefix_cons in H.
  destruct (Ascii.eqb_spec a b) as [->|]; [|done].
  destruct (IH s H) as [r ->]. by exists r.
Qed.

(** White space seen from a byte of a word is not made by what follows
    the word, when that is nothing or begins with a space. *)
Lemma space_len_tail c1 s1 rest :
  rest = "" \/ (exists r, rest = String " " r) ->
  space_len (String c1 s1) = 0%nat ->
  space_len (String c1 (s1 +:+ rest)) = 0%nat.
Proof.
  intros Hrest. unfold space_len.
  destruct (_ || _)%N; [done|].
  destruct s1 as [|c2 s2].
  - change ("" +:+ rest) with rest. by destruct Hrest as [->|[r ->]].
  - change (String c2 s2 +:+ rest) with (String c2 (s2 +:+ rest)). cbv beta iota.
    destruct (_ <? _)%N; [done|]. destruct (_ && _)%N; [done|].
    destruct s2 as [|c3 s3]; [|done].
    change ("" +:+ rest) with rest. by destruct Hrest as [->|[r ->]].
Qed.

Lemma split_ws_go_word w : forall rest cur g,
  rest = "" \/ (exists r, rest = String " " r) ->
  space_free w = true ->
  split_ws_go (w +:+ rest) cur g 0 =
  split_ws_go rest (cur +:+ w) (match w with EmptyString => g | _ => false end) 0.
Proof.
  induction w as [|c w IH]; intros rest cur g Hrest Hsf.
  - change ("" +:+ rest) with rest. by rewrite append_nil_r.
  - simpl in Hsf. apply andb_true_iff in Hsf as [Hc Hw].
    apply Nat.eqb_eq in Hc.
    change (String c w +:+ rest) with (String c (w +:+ rest)).
    cbn [split_ws_go]. rewrite (space_len_tail c w rest Hrest Hc).
    rewrite IH by done. rewrite append_snoc. by destruct w.
Qed.

Lemma split_ws_go_spaced ws : forall cur g,
  Forall word ws ->
  split_ws_go (spaced ws) cur g 0 =
  match ws with
  | [] => [cur]
  | w :: rest => (cur +:+ w) :: rest
  end.
Proof.
  induction ws as [|w ws IH]; intros cur g Hws; [done|].
  apply Forall_cons in Hws as [[Hne Hsf] Hws].
  destruct ws as [|w2 ws].
  - change (spaced [w]) with w. rewrite <- (append_nil_r w) at 1.
    rewrite split_ws_go_word by auto. done.
  - change (spaced (w :: w2 :: ws)) with (w +:+ String " " (spaced (w2 :: ws))).
    rewrite split_ws_go_word by eauto.
    destruct w as [|c w]; [done|].
    cbn [split_ws_go]. change (space_len (String " " ?x)) with 1%nat.
    cbv iota. by rewrite IH.
Qed.

Lemma split_ws_spaced ws : ws <> [] -> Forall word ws -> split_ws (spaced ws) = ws.
Proof.
  intros Hne Hws. unfold split_ws. rewrite split_ws_go_spaced by done.
  by destruct ws.
Qed.

(** ASCII letters in either case make the same words. *)
Lemma lower_ascii_ascii c :
  (N_of_ascii (lower_ascii c) <? 128)%N = (N_of_ascii c <? 128)%N.
Proof. by destruct c as [[] [] [] [] [] [] [] []]. Qed.

Lemma ascii_only_lower s : ascii_only (ascii_toLowerCase s) = ascii_only s.
Proof.
  induction s as [|c s IH]; [done|]. cbn [ascii_toLowerCase ascii_only].
  by rewrite lower_ascii_ascii, IH.
Qed.

Lemma space_len_ascii c s :
  (N_of_ascii c <? 128)%N = true ->
  space_len (String c s) =
  if ((N_of_ascii c =? 32) || ((9 <=? N_of_ascii c) && (N_of_ascii c <=? 13)))%N
  then 1%nat else 0%nat.
Proof.
  intros Hc%N.ltb_lt. unfold space_len. destruct (_ || _)%N; [done|].
  destruct s as [|c2 s2]; [done|]. destruct (_ <? _)%N; [done|].
  assert ((N_of_ascii c =? 194)%N = false) as -> by (apply N.eqb_neq; lia).
  cbn [andb]. destruct s2 as [|c3 s3]; [done|]. destruct (_ <? _)%N; [done|].
  unfold space3.
  assert ((N_of_ascii c =? 225)%N = false) as -> by (apply N.eqb_neq; lia).
  assert ((N_of_ascii c =? 226)%N = false) as -> by (apply N.eqb_neq; lia).
  assert ((N_of_ascii c =? 227)%N = false) as -> by (apply N.eqb_neq; lia).
  assert ((N_of_ascii c =? 239)%N = false) as -> by (apply N.eqb_neq; lia).
  done.
Qed.

Lemma lower_ascii_space c :
  let n := N_of_ascii (lower_ascii c) in
  let n' := N_of_ascii c in
  ((n =? 32) || ((9 <=? n) && (n <=? 13)))%N
  = ((n' =? 32) || ((9 <=? n') && (n' <=? 13)))%N.
Proof. by destruct c as [[] [] [] [] [] [] [] []]. Qed.

Lemma space_free_lower s :
  ascii_only s = true -> space_free (ascii_toLowerCase s) = space_free s.
Proof.
  induction s as [|c s IH]; [done|]. cbn [ascii_only ascii_toLowerCase space_free].
  intros [Hc Hs]%andb_true_iff.
  rewrite !space_len_ascii by by rewrite ?lower_ascii_ascii.
  pose proof (lower_ascii_space c) as Hsp. cbv zeta in Hsp.
  by rewrite Hsp, IH.
Qed.

(** A word that folds to an ASCII word is an ASCII word. *)
Lemma word_of_lower w w' :
  ascii_toLowerCase w = w' -> ascii_only w' = true -> word w' ->
  ascii_only w = true /\ word w.
Proof.
  intros <- Ha [Hne Hsf]. rewrite ascii_only_lower in Ha.
  split; [done|]. split.
  - by intros ->.
  - by rewrite <- space_free_lower.
Qed.

Lemma ascii_only_app s t :
  ascii_only (s +:+ t) = ascii_only s && ascii_only t.
Proof.
  induction s as [|c s IH]; [done|].
  change (String c s +:+ t) with (String c (s +:+ t)).
  cbn [ascii_only]. by rewrite IH, andb_assoc.
Qed.

Lemma ascii_toLowerCase_app s t :
  ascii_toLowerCase (s +:+ t) = ascii_toLowerCase s +:+ ascii_toLowerCase t.
Proof.
  induction s as [|c s IH]; [done|].
  change (String (lower_ascii c) (ascii_toLowerCase (s +:+ t))
          = String (lower_ascii c) (ascii_toLowerCase s +:+ ascii_toLowerCase t)).
  by rewrite IH.
Qed.

Lemma append_assoc s t u : (s +:+ t) +:+ u = s +:+ (t +:+ u).
Proof.
  induction s as [|c s IH]; [done|].
  change (String c ((s +:+ t) +:+ u) = String c (s +:+ (t +:+ u))).
  by rewrite IH.
Qed.

Section ascii_commands.

(** Two facts of [toLowerCase]: on a string of ASCII characters it folds
    the letters A to Z and nothing else, and the folding of a string that
    begins with ASCII characters begins with their folding. *)
Hypothesis toLowerCase_ascii :
  forall s, ascii_only s = true -> toLowerCase s = ascii_toLowerCase s.
Hypothesis toLowerCase_ascii_prefix :
  forall s t, ascii_only s = true ->
    String.prefix (ascii_toLowerCase s) (toLowerCase (s +:+ t)) = true.

(** X12.  The link command is read by words: the two command words in any
    letter case followed by one more word make a link request for exactly
    that word, letter case kept; with words after the name the caller
    gets the usage reply and nothing else happens; and the two command
    words alone are taken neither as a link nor as an unlink command (no
    reply, no change).  A word is a string without white space of any
    kind that [\s] knows. *)
Theorem link_command_by_words d w1 w2 name more st :
  ascii_toLowerCase w1 = "!anilist" ->
  ascii_toLowerCase w2 = "link" ->
  word name ->
  Forall word more ->
  messageCreate (message_of d [w1; w2; name]) st =
    match find_existing name (obj_get d (anilistUsers st))
            (obj_values (anilistUsers st)) with
    | None => Threw st
    | Some (Some _) => Returned (emit (Reply (ReplyAlreadyLinked name)) st)
    | Some None => Requested d name st
    end
  /\ (more <> [] ->
      messageCreate (message_of d (w1 :: w2 :: name :: more)) st
      = Returned (emit (Reply ReplyUsage) st))
  /\ messageCreate (message_of d [w1; w2]) st = Other st.
Proof.
  intros H1 H2 Hname Hmore.
  destruct (word_of_lower w1 "!anilist" H1) as [Ha1 Hw1]; [done..|].
  destruct (word_of_lower w2 "link" H2) as [Ha2 Hw2]; [done..|].
  assert (forall rest,
            String.prefix "!anilist link "
              (toLowerCase (w1 +:+ String " " (w2 +:+ String " " rest))) = true) as Hp.
  { intros rest.
    pose proof (toLowerCase_ascii_prefix (w1 +:+ " " +:+ w2 +:+ " ") rest) as H.
    rewrite !ascii_only_app, Ha1, Ha2, !ascii_toLowerCase_app, H1, H2 in H.
    rewrite !append_assoc in H. by apply H. }
  split; [|split].
  - apply (messageCreate_link (message_of d [w1; w2; name]) st name).
    split; [done|]. split; [apply Hp|].
    exists w1, w2. apply split_ws_spaced; [done|].
    repeat (apply Forall_cons_2; [done|]). apply Forall_nil_2.
  - intros Hne. unfold messageCreate. cbn [author_bot message_of content].
    destruct more as [|w4 more]; [done|].
    change (spaced (w1 :: w2 :: name :: w4 :: more))
      with (w1 +:+ String " " (w2 +:+ String " " (spaced (name :: w4 :: more)))) at 1.
    rewrite Hp. rewrite split_ws_spaced; [done|done|].
    apply Forall_cons in Hmore as [Hw4 Hmore].
    repeat (apply Forall_cons_2; [done|]). done.
  - unfold messageCreate. cbn [author_bot message_of content spaced].
    rewrite toLowerCase_ascii by by rewrite !ascii_only_app, Ha1, Ha2.
    rewrite !ascii_toLowerCase_app, H1, H2. reflexivity.
Qed.

(** The content of a message that opens with the word [w]. *)
Lemma spaced_cons w ws :
  spaced (w :: ws) = w +:+ match ws with [] => "" | _ => String " " (spaced ws) end.
Proof. destruct ws; [by rewrite append_nil_r | done]. Qed.

Lemma stats_word_word w type : stats_word w type -> ascii_only w = true /\ word w.
Proof.
  intros [[H _]|[[H _]|[H _]]]; by apply (word_of_lower w _ H).
Qed.

(** What the tests of the handler make of a content that opens with a
    statistics word. *)
Lemma stats_word_tests w type t :
  stats_word w type ->
  let content_lc := toLowerCase (w +:+ t) in
  String.prefix "!anilist link " content_lc = false
  /\ String.eqb content_lc "!anilist unlink" = false
  /\ String.eqb content_lc "!unlink" = false
  /\ (String.prefix "!myanime" content_lc || String.prefix "!mymanga" content_lc
      || String.prefix "!profile" content_lc) = true
  /\ (if String.prefix "!myanime" content_lc then type_anime
      else if String.prefix "!mymanga" content_lc then type_manga
      else type_both) = type.
Proof.
  intros Hw. destruct (stats_word_word w type Hw) as [Ha _].
  pose proof (toLowerCase_ascii_prefix w t Ha) as Hp. cbv zeta.
  destruct Hw as [[Hl ->]|[[Hl ->]|[Hl ->]]]; rewrite Hl in Hp;
    apply prefix_inv in Hp as [r ->]; cbv [String.append];
    rewrite !prefix_cons, ?prefix_nil; by vm_compute.
Qed.

Lemma stats_command_words w type d args mentions st :
  stats_word w type ->
  Forall word args ->
  stats_command {| msg := message_of d (w :: args); mentions_users := mentions |} st =
  match args with
  | [] =>
      if truthy (obj_get d (anilistUsers st))
      then StatsLookup (prop (obj_get d (anilistUsers st)) "name") type
      else StatsFeedback LinkFirst
  | [arg] =>
      match mentions with
      | [(id, username)] =>
          if truthy (obj_get id (anilistUsers st))
          then StatsLookup (prop (obj_get id (anilistUsers st)) "name") type
          else StatsFeedback (MentionNotLinked username)
      | _ => StatsLookup (JStr arg) type
      end
  | _ => StatsFeedback StatsUsage
  end.
Proof.
  intros Hw Hargs. destruct (stats_word_word w type Hw) as [_ Hword].
  unfold stats_command, messageCreate.
  cbn [msg mentions_users author_bot author_id message_of content].
  rewrite spaced_cons.
  destruct (stats_word_tests w type
              (match args with [] => "" | _ :: _ => String " " (spaced args) end) Hw)
    as (-> & -> & -> & -> & ->).
  cbn [orb].
  rewrite <- spaced_cons, split_ws_spaced; [done|done|by apply Forall_cons_2].
Qed.

(** X19.  The statistics commands pick their target by the shape of the
    message: the command word alone (in any letter case) looks up the
    caller's own linked name, or tells a caller without a link to link
    first; with one further word it is the linked name of the mentioned
    user when exactly one user is mentioned (or the reply that this user
    has no link), and otherwise that word itself, letter case kept; with
    more words it is the usage reply.  The word decides the type. *)
Theorem stats_target_by_shape w type d arg more mentions st :
  stats_word w type ->
  word arg ->
  Forall word more ->
  let ask := fun ws ms =>
    stats_command {| msg := message_of d ws; mentions_users := ms |} st in
  ask [w] mentions =
    (if truthy (obj_get d (anilistUsers st))
     then StatsLookup (prop (obj_get d (anilistUsers st)) "name") type
     else StatsFeedback LinkFirst)
  /\ (List.length mentions <> 1%nat -> ask [w; arg] mentions = StatsLookup (JStr arg) type)
  /\ (forall id username,
        ask [w; arg] [(id, username)] =
        if truthy (obj_get id (anilistUsers st))
        then StatsLookup (prop (obj_get id (anilistUsers st)) "name") type
        else StatsFeedback (MentionNotLinked username))
  /\ (more <> [] -> ask (w :: arg :: more) mentions = StatsFeedback StatsUsage).
Proof.
  intros Hw Harg Hmore ask. subst ask. cbv beta.
  split; [|split; [|split]].
  - by rewrite (stats_command_words w type d [] mentions st Hw).
  - intros Hlen.
    rewrite (stats_command_words w type d [arg] mentions st Hw)
      by by apply Forall_cons_2.
    by destruct mentions as [|[id username] [|]].
  - intros id username.
    by rewrite (stats_command_words w type d [arg] [(id, username)] st Hw)
      by by apply Forall_cons_2.
  - intros Hne.
    rewrite (stats_command_words w type d (arg :: more) mentions st Hw)
      by by apply Forall_cons_2.
    by destruct more.
Qed.
End ascii_commands.

End bot.

(** * Examples *)

Local Open Scope string_scope.
Local Open Scope Z_scope.
Local Open Scope list_scope.

Lemma ascii_toLowerCase_nonempty s : ascii_toLowerCase s = "" -> s = "".
Proof. by destruct s. Qed.

Lemma ascii_toLowerCase_prefix s t :
  ascii_only s = true ->
  String.prefix (ascii_toLowerCase s) (ascii_toLowerCase (s +:+ t)) = true.
Proof. intros _. rewrite ascii_toLowerCase_app. apply prefix_append. Qed.

Lemma loadUsers_upgrades_legacy_witness :
  let st' := loadUsers knows_alice (initial (Json (JObj legacy_doc))) in
  obj_lookup "u1" (anilistUsers st')
  = Some (JObj [("id", JNum 42); ("name", JStr "Alice")])
  /\ writes (trace st') = [[("u1", JObj [("id", JNum 42); ("name", JStr "Alice")])]]
  /\ usersFile st'
     = Json (JObj [("u1", JObj [("id", JNum 42); ("name", JStr "Alice")])]).
Proof.
  exact (proj1 (loadUsers_upgrades_legacy knows_alice
                  (initial (Json (JObj legacy_doc))) legacy_doc eq_refl
                  (NoDup_singleton "u1"))
           "u1" "Alice" 42 "Alice" eq_refl eq_refl).
Defined.

Lemma loadUsers_drops_unresolved_witness :
  let st' := loadUsers knows_alice (initial (Json (JObj mixed_doc))) in
  obj_lookup "u2" (anilistUsers st') = None
  /\ obj_lookup "u1" (anilistUsers st') = Some (link_obj 42 "Alice")
  /\ obj_lookup "u3" (anilistUsers st') = Some (link_obj 7 "Bob").
Proof.
  assert (NoDup (obj_keys mixed_doc)) as Hnd.
  { apply (bool_decide_unpack _). vm_compute. exact I. }
  destruct (loadUsers_drops_unresolved knows_alice
              (initial (Json (JObj mixed_doc))) mixed_doc eq_refl Hnd)
    as (Hdrop & Hup & Hkeep).
  split; [|split].
  - apply (Hdrop "u2" "Ghost"); [reflexivity | left; reflexivity].
  - apply (Hup "u1" "Alice" 42 "Alice"); reflexivity.
  - apply (Hkeep "u3" (link_obj 7 "Bob")); reflexivity.
Defined.

Lemma loadUsers_tolerates_bad_documents_witness :
  (let st' := loadUsers_on Written knows_alice (initial Garbage) in
   anilistUsers st' = [] /\ trace st' = [Log LogLoadError] /\ usersFile st' = Garbage)
  /\ (let st' := loadUsers_on (WriteFailed Garbage) knows_alice
                   (initial (Json (JObj legacy_doc))) in
      anilistUsers st' = []
      /\ (exists lines,
            trace st' = [] ++ map Log lines ++ [Log LogSaving; Log LogLoadError])
      /\ writes (trace st') = []
      /\ usersFile st' = Garbage)
  /\ (let st' := loadUsers_on Written knows_alice (initial (Json (JObj odd_doc))) in
      obj_lookup "u2" (anilistUsers st') = None
      /\ convert_entry knows_alice (JObj [("id", JNum 0); ("name", JStr "Zed")])
         = (None, false, [])).
Proof.
  split; [|split].
  - apply (loadUsers_tolerates_bad_documents Written knows_alice (initial Garbage));
      [discriminate | reflexivity].
  - apply (proj1 (proj2 (loadUsers_tolerates_bad_documents (WriteFailed Garbage)
                           knows_alice (initial (Json (JObj legacy_doc)))
                           ltac:(discriminate)))
             (JObj legacy_doc) Garbage "u1" "Alice" 42 "Alice" eq_refl).
    + apply list_elem_of_here.
    + reflexivity.
    + reflexivity.
  - assert (NoDup (obj_keys odd_doc)) as Hnd.
    { apply (bool_decide_unpack _). vm_compute. exact I. }
    apply (proj2 (proj2 (loadUsers_tolerates_bad_documents Written knows_alice
                           (initial (Json (JObj odd_doc))) ltac:(discriminate)))
             odd_doc "u2" _ eq_refl Hnd eq_refl eq_refl eq_refl).
Defined.

Lemma dedup_rule_witness :
  sends (trace (poll_user ascii_toLowerCase (fun _ => Latest (sample 7)) deliver
                  alice (alice_seen ascii_toLowerCase)))
  = sends (trace (alice_seen ascii_toLowerCase))
    ++ [render ascii_toLowerCase "Alice" (sample 7)].
Proof.
  apply (proj2 (proj1 (dedup_rule ascii_toLowerCase (fun _ => Latest (sample 7))
                         deliver alice (alice_seen ascii_toLowerCase) (sample 7)
                         eq_refl ltac:(intros _; reflexivity)))).
  right. exists 5. split; reflexivity.
Defined.

Lemma ledger_before_send_witness :
  let fetch := fun _ : jsval => Latest (sample 7) in
  let st' := poll_user ascii_toLowerCase fetch refuse alice alice_only in
  trace st' =
    [Remember "Alice" 7; Send (render ascii_toLowerCase "Alice" (sample 7)) false;
     Log (LogAniListError "Alice" "Missing Access")]
  /\ lastActivityId st' !! "Alice" = Some 7
  /\ sends (trace (poll_user ascii_toLowerCase fetch deliver alice st'))
     = sends (trace st').
Proof.
  intros fetch st'.
  destruct (ledger_before_send ascii_toLowerCase fetch refuse alice alice_only
              (sample 7) eq_refl eq_refl) as (_ & Hfail & Hstored & Hnext & _).
  split; [|split].
  - apply (Hfail "Missing Access"). reflexivity.
  - exact Hstored.
  - apply (Hnext ltac:(discriminate) fetch deliver). reflexivity.
Defined.

Lemma poll_cycle_isolated_witness :
  let st' := fetchAndPostActivity ascii_toLowerCase flaky (Some deliver) three_users in
  (exists evs,
      trace st' = trace three_users ++ evs
      /\ omap log_account evs = ["Alice"; "Bob"; "Carol"])
  /\ render ascii_toLowerCase "Bob" (sample 8) ∈ sends (trace st')
  /\ lastActivityId st' !! "Bob" = Some 8.
Proof.
  apply (poll_cycle_isolated ascii_toLowerCase flaky deliver three_users
           [link_obj 1 "Alice"] (link_obj 2 "Bob") [link_obj 3 "Carol"] (sample 8)).
  - reflexivity.
  - apply (bool_decide_unpack _). vm_compute. exact I.
  - reflexivity.
  - reflexivity.
Defined.



Lemma unlink_removes_both_witness :
  (exists st',
      messageCreate ascii_toLowerCase (unlink_by "u1") (alice_seen ascii_toLowerCase)
      = Returned st'
      /\ obj_lookup "u1" (anilistUsers st') = None
      /\ lastActivityId st' !! "Alice" = None
      /\ usersFile st' = Json (JObj [])
      /\ messageCreate ascii_toLowerCase (unlink_by "u1") st'
         = Returned (emit (Reply ReplyNotLinked) st'))
  /\ (exists st',
        messageCreate ascii_toLowerCase (unlink_by "u9") (alice_seen ascii_toLowerCase)
        = Returned st'
        /\ anilistUsers st' = anilistUsers (alice_seen ascii_toLowerCase)
        /\ lastActivityId st' = lastActivityId (alice_seen ascii_toLowerCase)
        /\ replies (trace st') = [ReplyNotLinked]).
Proof.
  split.
  - destruct (proj1 (unlink_removes_both ascii_toLowerCase (unlink_by "u1")
                       (alice_seen ascii_toLowerCase)
                       (conj eq_refl (or_intror eq_refl)))
                alice eq_refl eq_refl)
      as (st' & Hr & Hgone & Hforgot & _ & _ & Hfile & _ & _ & Hagain).
    exists st'. repeat split; try done.
    rewrite Hfile. injection Hr as <-. reflexivity.
  - destruct (proj2 (unlink_removes_both ascii_toLowerCase (unlink_by "u9")
                       (alice_seen ascii_toLowerCase)
                       (conj eq_refl (or_intror eq_refl))) eq_refl)
      as (st' & Hr & Hu & Hl & _ & _ & Hrep).
    exists st'. repeat split; done.
Defined.

Lemma relink_replaces_witness :
  let st' := handle ascii_toLowerCase knows_bob (link_bob_by "u1") alice_only in
  obj_lookup "u1" (anilistUsers st')
  = Some (JObj [("id", JNum 2); ("name", JStr "Bob")])
  /\ obj_keys (anilistUsers st') = ["u1"]
  /\ usersFile st' = Json (JObj [("u1", JObj [("id", JNum 2); ("name", JStr "Bob")])])
  /\ writes (trace st') = [[("u1", JObj [("id", JNum 2); ("name", JStr "Bob")])]]
  /\ replies (trace st') = [ReplyLinked "Bob" 2].
Proof.
  destruct (relink_replaces ascii_toLowerCase knows_bob (link_bob_by "u1") alice_only
              "bob" alice 2 "Bob"
              (conj eq_refl (conj eq_refl
                 (ex_intro _ "!anilist" (ex_intro _ "link" eq_refl))))
              eq_refl eq_refl eq_refl)
    as (H1 & H2 & _ & H4 & H5 & H6).
  repeat split; done.
Defined.

Lemma poll_cycle_output_witness :
  let st' := fetchAndPostActivity ascii_toLowerCase orphaned (Some refuse) three_users in
  sends (trace st') = [render ascii_toLowerCase "Alice" (sample 6)]
  /\ lastActivityId st' !! "Alice" = Some 6
  /\ lastActivityId st' !! "Bob" = Some 8
  /\ lastActivityId st' !! "Carol" = None.
Proof.
  assert (NoDup (map account (obj_values (anilistUsers three_users)))) as Hnd.
  { apply (bool_decide_unpack _). vm_compute. exact I. }
  destruct (poll_cycle_output ascii_toLowerCase orphaned refuse three_users Hnd)
    as (Hs & Hl & _).
  split; [exact Hs|]. split; [|split].
  - apply (Hl (link_obj 1 "Alice")). apply list_elem_of_here.
  - apply (Hl (link_obj 2 "Bob")). apply list_elem_of_further, list_elem_of_here.
  - apply (Hl (link_obj 3 "Carol")).
    apply list_elem_of_further, list_elem_of_further, list_elem_of_here.
Defined.

Lemma poll_cycle_idle_witness :
  let st' := fetchAndPostActivity ascii_toLowerCase (fun _ => Latest (sample 9)) None
               alice_only in
  (exists line, trace st' = trace alice_only ++ [Log line])
  /\ lastActivityId st' = lastActivityId alice_only
  /\ anilistUsers st' = anilistUsers alice_only
  /\ usersFile st' = usersFile alice_only.
Proof.
  apply (poll_cycle_idle ascii_toLowerCase (fun _ => Latest (sample 9)) None alice_only).
  right. reflexivity.
Defined.

Lemma ledger_never_decreases_witness :
  exists last',
    lastActivityId (poll_cycles ascii_toLowerCase (Some deliver) (feed [3; 9; 4])
                      (alice_seen ascii_toLowerCase)) !! "Alice"
    = Some last'
    /\ 5 <= last'.
Proof.
  apply (ledger_never_decreases ascii_toLowerCase (Some deliver) (feed [3; 9; 4])
           (alice_seen ascii_toLowerCase) "Alice" 5).
  - reflexivity.
  - lia.
Defined.

Lemma repeated_cycle_silent_witness :
  let st1 := fetchAndPostActivity ascii_toLowerCase orphaned (Some refuse) three_users in
  let st2 := fetchAndPostActivity ascii_toLowerCase orphaned (Some deliver) st1 in
  sends (trace st2) = sends (trace st1)
  /\ lastActivityId st2 = lastActivityId st1.
Proof.
  apply (repeated_cycle_silent ascii_toLowerCase orphaned refuse deliver three_users).
  intros userId id. unfold orphaned.
  destruct userId as [| | |z| | |]; try discriminate.
  destruct z as [|[p|p|]|]; try discriminate.
  - destruct p as [p|p|]; try discriminate. intros [= <-]. reflexivity.
  - intros [= <-]. reflexivity.
Defined.

Lemma notified_ids_increase_witness :
  exists evs,
    trace (poll_cycles ascii_toLowerCase (Some deliver) (feed [5; 5; 7; 3; 9]) alice_only)
    = trace alice_only ++ evs
    /\ StronglySorted Z.lt (remembers "Alice" evs).
Proof.
  destruct (notified_ids_increase ascii_toLowerCase (Some deliver)
              (feed [5; 5; 7; 3; 9]) alice_only "Alice")
    as (evs & Ht & Hs & _).
  - unfold feed. apply Forall_fmap, Forall_forall. intros i Hi userId id [= <-].
    repeat (apply elem_of_cons in Hi as [->|Hi]; [reflexivity|]).
    by apply elem_of_nil in Hi.
  - by exists evs.
Defined.

Lemma store_stays_wf_witness :
  store_wf (handle ascii_toLowerCase knows_bob (link_bob_by "u1") alice_only)
  /\ store_wf (loadUsers knows_alice (initial (Json (JObj mixed_doc)))).
Proof.
  assert (store_wf alice_only) as Hwf.
  { split; [apply NoDup_singleton | by repeat constructor]. }
  destruct (store_stays_wf ascii_toLowerCase knows_alice (link_bob_by "u1") None []
              (Json (JObj mixed_doc)) alice_only Hwf) as (_ & _ & _ & Hload).
  destruct (store_stays_wf ascii_toLowerCase knows_bob (link_bob_by "u1") None []
              (Json (JObj mixed_doc)) alice_only Hwf) as (_ & Hhandle & _).
  by split.
Defined.

Lemma link_changes_little_witness :
  let st' := handle ascii_toLowerCase knows_alice (link_bob_by "u1")
               (alice_seen ascii_toLowerCase) in
  lastActivityId st' = lastActivityId (alice_seen ascii_toLowerCase)
  /\ anilistUsers st' = anilistUsers (alice_seen ascii_toLowerCase)
  /\ usersFile st' = usersFile (alice_seen ascii_toLowerCase)
  /\ writes (trace st') = writes (trace (alice_seen ascii_toLowerCase)).
Proof.
  destruct (link_changes_little ascii_toLowerCase knows_alice (link_bob_by "u1")
              (alice_seen ascii_toLowerCase) "bob"
              (conj eq_refl (conj eq_refl
                 (ex_intro _ "!anilist" (ex_intro _ "link" eq_refl)))))
    as [Hl Hrest].
  split; [exact Hl|]. apply Hrest. intros id name. discriminate.
Defined.

Lemma names_stay_unique_witness :
  unique_names ascii_toLowerCase
    (anilistUsers (handle ascii_toLowerCase knows_bob (link_bob_by "u2") alice_only)).
Proof.
  apply (names_stay_unique ascii_toLowerCase ascii_toLowerCase_nonempty
           knows_bob (link_bob_by "u2") alice_only).
  - intros d1 d2 u1 u2 n H1 H2 _ _. simpl in H1, H2.
    destruct (String.eqb_spec d1 "u1"), (String.eqb_spec d2 "u1"); congruence.
  - intros t id name (_ & _ & p0 & p1 & [= _ _ <-]). unfold knows_bob. simpl.
    intros [= <- <-]. by split.
Defined.

Lemma link_race_witness :
  let st' :=
    link_settled "u3" "bob" (ResolveUser 2 "Bob")
      (link_settled "u2" "bob" (ResolveUser 2 "Bob") alice_only) in
  messageCreate ascii_toLowerCase (link_bob_by "u2") alice_only
  = Requested "u2" "bob" alice_only
  /\ messageCreate ascii_toLowerCase (link_bob_by "u3") alice_only
     = Requested "u3" "bob" alice_only
  /\ obj_lookup "u2" (anilistUsers st')
     = Some (JObj [("id", JNum 2); ("name", JStr "Bob")])
  /\ obj_lookup "u3" (anilistUsers st')
     = Some (JObj [("id", JNum 2); ("name", JStr "Bob")])
  /\ ~ unique_names ascii_toLowerCase (anilistUsers st').
Proof.
  apply (link_race ascii_toLowerCase (link_bob_by "u2") (link_bob_by "u3")
           alice_only "bob" 2 "Bob").
  - exact (conj eq_refl (conj eq_refl
             (ex_intro _ "!anilist" (ex_intro _ "link" eq_refl)))).
  - exact (conj eq_refl (conj eq_refl
             (ex_intro _ "!anilist" (ex_intro _ "link" eq_refl)))).
  - discriminate.
  - repeat constructor. exists "alice". split; [reflexivity | discriminate].
Defined.

Lemma loadUsers_sound_witness :
  exists raw,
    obj_lookup "u1" mixed_doc = Some raw
    /\ ((is_structured raw = true /\ link_obj 42 "Alice" = raw)
        \/ exists s id name,
             raw = JStr s /\ knows_alice s = ResolveUser id name
             /\ link_obj 42 "Alice" = link_obj id name).
Proof.
  apply (loadUsers_sound knows_alice (initial (Json (JObj mixed_doc)))
           (JObj mixed_doc) "u1" (link_obj 42 "Alice") eq_refl).
  - apply (bool_decide_unpack _). vm_compute. exact I.
  - reflexivity.
Defined.

Lemma save_load_roundtrip_witness :
  let st' := loadUsers knows_alice (saveUsers three_users) in
  anilistUsers st' = anilistUsers three_users
  /\ writes (trace st') = [anilistUsers three_users].
Proof.
  assert (NoDup (obj_keys (anilistUsers three_users))) as Hnd.
  { apply (bool_decide_unpack _). vm_compute. exact I. }
  assert (Forall (fun v => is_structured v = true) (obj_values (anilistUsers three_users)))
    as Hall by (repeat (apply Forall_cons_2; [reflexivity|]); apply Forall_nil_2).
  destruct (save_load_roundtrip knows_alice three_users Hnd Hall) as (_ & Hw & _ & Heq).
  split; [|exact Hw]. apply Heq.
  repeat (apply Forall_cons_2; [reflexivity|]). apply Forall_nil_2.
Defined.

Lemma first_cycle_posts_latest_witness :
  sends (trace (clientReady ascii_toLowerCase knows_alice (fun _ => Latest (sample 4))
                  (Some deliver) (Json (JObj mixed_doc))))
  = [render ascii_toLowerCase "Alice" (sample 4);
     render ascii_toLowerCase "Bob" (sample 4)].
Proof.
  apply (first_cycle_posts_latest ascii_toLowerCase knows_alice
           (fun _ => Latest (sample 4)) deliver (Json (JObj mixed_doc))).
  apply (bool_decide_unpack _). vm_compute. exact I.
Defined.

Lemma ranking_is_the_stable_order_witness :
  map name (validStats anime example_responses) = ["B"; "C"; "A"].
Proof.
  rewrite (ranking_is_the_stable_order anime example_responses
             (omap (valid_stat anime) [answer "B" 25; answer "C" 25; answer "A" 10])).
  - reflexivity.
  - cbn. unfold desc. repeat constructor; simpl; lia.
  - intros c. cbn.
    destruct (decide (25 = c)), (decide (10 = c)); try done. lia.
Defined.

Lemma link_command_by_words_witness :
  messageCreate ascii_toLowerCase (message_of "u2" ["!AniList"; "LINK"; "Bob"])
    alice_only
  = Requested "u2" "Bob" alice_only
  /\ messageCreate ascii_toLowerCase
       (message_of "u2" ["!AniList"; "LINK"; "Bob"; "please"]) alice_only
     = Returned (emit (Reply ReplyUsage) alice_only)
  /\ messageCreate ascii_toLowerCase (message_of "u2" ["!AniList"; "LINK"]) alice_only
     = Other alice_only.
Proof.
  destruct (link_command_by_words ascii_toLowerCase (fun _ _ => eq_refl)
              ascii_toLowerCase_prefix "u2" "!AniList" "LINK" "Bob" ["please"]
              alice_only eq_refl eq_refl ltac:(by split) ltac:(by repeat constructor))
    as (H1 & H2 & H3).
  split; [exact H1|]. split; [|exact H3]. by apply H2.
Defined.

Lemma stats_target_by_shape_witness :
  let ask := fun ws ms =>
    stats_command ascii_toLowerCase
      {| msg := message_of "u1" ws; mentions_users := ms |} alice_only in
  ask ["!MyAnime"] [] = StatsLookup (JStr "Alice") type_anime
  /\ ask ["!MyAnime"; "Bob"] [] = StatsLookup (JStr "Bob") type_anime
  /\ ask ["!MyAnime"; "<@u7>"] [("u7", "seven")] = StatsFeedback (MentionNotLinked "seven")
  /\ ask ["!MyAnime"; "Bob"; "now"] [] = StatsFeedback StatsUsage.
Proof.
  intros ask.
  assert (word "Bob") as Hbob by by split.
  destruct (stats_target_by_shape ascii_toLowerCase ascii_toLowerCase_prefix
              "!MyAnime" type_anime "u1" "Bob" ["now"] [] alice_only
              (or_introl (conj eq_refl eq_refl)) Hbob
              ltac:(apply Forall_cons_2; [by split | apply Forall_nil_2]))
    as (H1 & H2 & _ & H4).
  split; [exact H1|]. split; [by apply H2|]. split; [reflexivity|]. by apply H4.
Defined.
